(** * Secondary indexes over a reorganizing block chain

    Shallow embedding of the query aggregator [FullNodeIndexer]
    (lib/indexer/fullnodeindexer.js), of its HTTP handlers, of the error
    wiring done by [init], and of the test helper [less]
    (test/indexer-test.js).  The synchronization engine and the two
    persisted indexes live in files of the repository that are not part of
    the verified slice; they are modelled from the design document. *)

From stdpp Require Import gmap strings list fin_maps.
From Stdlib Require Import ZArith Lia.

#[local] Set Warnings "-clear-no-such-hyp".

Local Open Scope Z_scope.

(** ** Data model *)

(** A 32-byte hash, read as the little-endian number its bytes spell. *)
Abbreviation Hash := Z.
(** The fingerprint of an address. *)
Abbreviation Address := Z.
(** The network an address is encoded for. *)
Definition Network : Type := string.

(** (transaction hash, output index) *)
Abbreviation Outpoint := (Hash * nat)%type.

(** Modelled from the spec: a transaction output (lib/primitives is not
    part of the verified slice): its value and the address it pays. *)
Record Output := mkOutput {
  out_value : Z;
  out_address : Address
}.

(** Modelled from the spec: a transaction: its hash, the outpoints it
    spends and its outputs. *)
Record TX := mkTX {
  tx_hash : Hash;
  tx_inputs : list Outpoint;
  tx_outputs : list Output
}.

(** Modelled from the spec: a transaction without inputs is a coinbase. *)
Definition isCoinbase (t : TX) : bool :=
  match tx_inputs t with [] => true | _ => false end.

(** Modelled from the spec: [{tx, height, block hash, time}], the
    confirmation context of a transaction; height -1 is the unconfirmed
    sentinel. *)
Record TXMeta := mkTXMeta {
  meta_tx : TX;
  meta_height : Z;
  meta_block : Hash;
  meta_time : Z
}.

(** Modelled from the spec:
    [{tx hash, output index, value, address, height, coinbase flag}]. *)
Record Coin := mkCoin {
  coin_hash : Hash;
  coin_index : nat;
  coin_value : Z;
  coin_address : Address;
  coin_height : Z;
  coin_coinbase : bool
}.

(** A coin view: outpoint to coin data. *)
Abbreviation CoinView := (gmap Outpoint Coin).

#[global] Instance Output_eq_dec : EqDecision Output.
Proof. solve_decision. Defined.
#[global] Instance TX_eq_dec : EqDecision TX.
Proof. solve_decision. Defined.
#[global] Instance Coin_eq_dec : EqDecision Coin.
Proof. solve_decision. Defined.

(** ** JavaScript values, exceptions and the call log *)

Module JS.

(** The values that travel through the query boundary. *)
#[warnings="-register-all"] Inductive Value :=
| VNull
| VStr (s : string)
| VBuf (h : Hash)
| VAddr (a : Address)
| VArr (l : list Value).

(** [!value] is false on these. *)
Definition truthy (v : Value) : bool :=
  match v with
  | VNull => false
  | VStr s => negb (String.eqb s "")
  | VBuf _ | VAddr _ | VArr _ => true
  end.

Definition isArray (v : Value) : bool :=
  match v with VArr _ => true | _ => false end.

Inductive Error :=
| HttpError (msg : string) (statusCode : Z)
| AssertionError
| Thrown (what : string).

Inductive Res (A : Type) :=
| Ok (a : A)
| Err (e : Error).
Arguments Ok {A} a.
Arguments Err {A} e.

(** Every call the aggregator makes on a collaborator. *)
Inductive Call :=
| MempoolHasTX (hash : Value)
| MempoolGetMeta (hash : Value)
| MempoolGetSpentView (t : TX)
| MempoolGetMetaByAddress (addrs : Value)
| TxHasTX (hash : Value)
| TxGetMeta (hash : Value)
| TxGetSpentView (t : TX)
| AddrGetHashesByAddress (addrs : Value)
| AddrGetCoinsByAddress (addrs : Value)
| ChainGetCoinView (t : TX).

(** A computation: the calls it made, in order, and how it ended. *)
Definition M (A : Type) : Type := (list Call * Res A)%type.

Definition ret {A} (a : A) : M A := ([], Ok a).
Definition throw {A} (e : Error) : M A := ([], Err e).
Definition bind {A B} (m : M A) (k : A -> M B) : M B :=
  match m with
  | (l, Ok a) => let '(l', r) := k a in (l ++ l', r)
  | (l, Err e) => (l, Err e)
  end.
(** A collaborator call: logged, then its outcome. *)
Definition call {A} (c : Call) (r : Res A) : M A := ([c], r).
(** An outcome that involves no collaborator of the aggregator. *)
Definition lift {A} (r : Res A) : M A := ([], r).

Definition calls {A} (m : M A) : list Call := fst m.
Definition outcome {A} (m : M A) : Res A := snd m.

End JS.

Import JS.

Notation "'do' x <- m ; k" := (bind m (fun x => k))
  (at level 10, x name, m at level 100, k at level 200,
   format "'[v' 'do'  x  <-  m ; '/' k ']'").
Notation "'run' m ; k" := (bind m (fun _ => k))
  (at level 10, m at level 100, k at level 200,
   format "'[v' 'run'  m ; '/' k ']'").

(** ** The query aggregator (lib/indexer/fullnodeindexer.js) *)

Module FullNodeIndexer.

(** The read surface of the three sub-indexes and of the chain, as the
    aggregator uses it.  A result [None] is JavaScript's [null]. *)
Record MempoolIndexer := {
  mp_hasTX : Value -> bool;
  mp_getMeta : Value -> Res (option TXMeta);
  mp_getSpentView : TX -> Res CoinView;
  mp_getMetaByAddress : Value -> Res (list TXMeta)
}.

Record TXIndexer := {
  txi_hasTX : Value -> Res bool;
  txi_getMeta : Value -> Res (option TXMeta);
  txi_getSpentView : TX -> Res CoinView
}.

Record AddrIndexer := {
  ai_getHashesByAddress : Value -> Res (list Hash);
  ai_getCoinsByAddress : Value -> Res (list Coin)
}.

Record Chain := {
  chain_height : Z;
  chain_spv : bool;
  chain_getCoinView : TX -> Res CoinView
}.

(** What the constructor reads from the node. *)
Record Node := {
  node_chain : Chain;
  node_index_tx : bool;
  node_index_address : bool;
  node_new_MempoolIndexer : MempoolIndexer;
  node_new_TXIndexer : TXIndexer;
  node_new_AddrIndexer : AddrIndexer
}.

Record t := {
  chain : Chain;
  mempoolindex : MempoolIndexer;
  spv : bool;
  txindex : option TXIndexer;
  addrindex : option AddrIndexer;
  (** [this.network] is read by the handlers; the constructor never
      assigns it. *)
  network : option Network
}.

Definition constructor (node : Node) : t :=
  {| chain := node_chain node;
     mempoolindex := node_new_MempoolIndexer node;
     spv := chain_spv (node_chain node);
     txindex := if node_index_tx node
                then Some (node_new_TXIndexer node) else None;
     addrindex := if node_index_address node
                  then Some (node_new_AddrIndexer node) else None;
     network := None |}.

Definition hasTX (this : t) (hash : Value) : M bool :=
  do b <- call (MempoolHasTX hash) (Ok (mp_hasTX (mempoolindex this) hash));
  if b then ret true
  else match txindex this with
       | Some txi => call (TxHasTX hash) (txi_hasTX txi hash)
       | None => ret false
       end.

Definition getMeta (this : t) (hash : Value) : M (option TXMeta) :=
  do meta <- call (MempoolGetMeta hash) (mp_getMeta (mempoolindex this) hash);
  match meta with
  | Some m => ret (Some m)
  | None =>
      match txindex this with
      | Some txi => call (TxGetMeta hash) (txi_getMeta txi hash)
      | None => ret None
      end
  end.

Definition getTX (this : t) (hash : Value) : M (option TX) :=
  do mtx <- getMeta this hash;
  match mtx with
  | None => ret None
  | Some m => ret (Some (meta_tx m))
  end.

Definition getMetaView (this : t) (meta : TXMeta) : M CoinView :=
  if Z.eqb (meta_height meta) (-1)
  then call (MempoolGetSpentView (meta_tx meta))
            (mp_getSpentView (mempoolindex this) (meta_tx meta))
  else match txindex this with
       | Some txi => call (TxGetSpentView (meta_tx meta))
                          (txi_getSpentView txi (meta_tx meta))
       | None => call (ChainGetCoinView (meta_tx meta))
                      (chain_getCoinView (chain this) (meta_tx meta))
       end.

(** [assert(mtx)] *)
Definition assert (mtx : option TXMeta) : M TXMeta :=
  match mtx with
  | Some m => ret m
  | None => throw AssertionError
  end.

(** The loop [for (const hash of hashes)] of [getMetaByAddress]. *)
Fixpoint collectMetas (txi : TXIndexer) (hashes : list Hash)
    (mtxs : list TXMeta) : M (list TXMeta) :=
  match hashes with
  | [] => ret mtxs
  | hash :: rest =>
      do mtx <- call (TxGetMeta (VBuf hash)) (txi_getMeta txi (VBuf hash));
      do m <- assert mtx;
      collectMetas txi rest (mtxs ++ [m])
  end.

Definition getMetaByAddress (this : t) (addrs : Value) : M (list TXMeta) :=
  do mempool <- call (MempoolGetMetaByAddress addrs)
                  (mp_getMetaByAddress (mempoolindex this) addrs);
  match txindex this, addrindex this with
  | Some txi, Some ai =>
      let addrs := if isArray addrs then addrs else VArr [addrs] in
      do hashes <- call (AddrGetHashesByAddress addrs)
                     (ai_getHashesByAddress ai addrs);
      do mtxs <- collectMetas txi hashes [];
      ret (mtxs ++ mempool)
  | _, _ => ret mempool
  end.

Definition getTXByAddress (this : t) (addrs : Value) : M (list TX) :=
  do mtxs <- getMetaByAddress this addrs;
  ret (map meta_tx mtxs).

Definition getCoinsByAddress (this : t) (addrs : Value) : M (list Coin) :=
  match addrindex this with
  | Some ai => call (AddrGetCoinsByAddress addrs)
                    (ai_getCoinsByAddress ai addrs)
  | None => ret []
  end.

(** [enforce(value, msg)]: the caller passes the truth value of
    [value]. *)
Definition enforce (value : bool) (msg : string) : M unit :=
  if value then ret tt else throw (HttpError msg 400).

(** *** The HTTP routes registered by the constructor *)

(** [Validator.fromRequest(req)] of the bval package: what each accessor
    yields for a parameter name ([VNull] when the parameter is missing),
    or the error the accessor raises. *)
Record Validator := {
  str : string -> Res Value;
  array : string -> Res Value;
  brhash : string -> Res Value
}.

(** [Address.fromString] of lib/primitives/address, which is outside
    the verified slice: its outcome on a value and a network. *)
Record Primitives := {
  fromString : Value -> option Network -> Res Address
}.

(** [coin.getJSON(network)] and [meta.getJSON(network, view, height)],
    kept symbolic. *)
Inductive JSON :=
| CoinJSON (c : Coin) (net : option Network)
| MetaJSON (m : TXMeta) (net : option Network) (view : CoinView)
           (height : Z).

Inductive Body :=
| NoBody
| One (j : JSON)
| Many (l : list JSON).

(** [res.json(status, body)] *)
Record Response := json {
  res_status : Z;
  res_body : Body
}.

(** The loop that renders each [meta] with its view. *)
Fixpoint metasJSON (this : t) (metas : list TXMeta) (result : list JSON)
    : M (list JSON) :=
  match metas with
  | [] => ret result
  | meta :: rest =>
      do view <- getMetaView this meta;
      metasJSON this rest
        (result ++ [MetaJSON meta (network this) view
                             (chain_height (chain this))])
  end.

Inductive Route :=
| GET_coin_address    (* GET /coin/address/:address *)
| POST_coin_address   (* POST /coin/address *)
| GET_tx              (* GET /tx/:hash *)
| GET_tx_address      (* GET /tx/address/:address *)
| POST_tx_address.    (* POST /tx/address *)

(** The first statement of each handler: the argument it reads. *)
Definition argument (r : Route) (valid : Validator) : Res Value :=
  match r with
  | GET_coin_address | GET_tx_address => str valid "address"
  | POST_coin_address | POST_tx_address => array valid "addresses"
  | GET_tx => brhash valid "hash"
  end.

Definition handler (P : Primitives) (r : Route) (this : t)
    (valid : Validator) : M Response :=
  match r with
  | GET_coin_address =>
      do address <- lift (str valid "address");
      run enforce (truthy address) "Address is required.";
      run enforce (negb (spv this)) "Cannot get coins in SPV mode.";
      do addr <- lift (fromString P address (network this));
      do coins <- getCoinsByAddress this (VAddr addr);
      ret (json 200
             (Many (map (fun c => CoinJSON c (network this)) coins)))
  | POST_coin_address =>
      do address <- lift (array valid "addresses");
      run enforce (truthy address) "Address is required.";
      run enforce (negb (spv this)) "Cannot get coins in SPV mode.";
      do coins <- getCoinsByAddress this address;
      ret (json 200
             (Many (map (fun c => CoinJSON c (network this)) coins)))
  | GET_tx =>
      do hash <- lift (brhash valid "hash");
      run enforce (truthy hash) "Hash is required.";
      run enforce (negb (spv this)) "Cannot get TX in SPV mode.";
      do meta <- getMeta this hash;
      match meta with
      | None => ret (json 404 NoBody)
      | Some meta =>
          do view <- getMetaView this meta;
          ret (json 200
                 (One (MetaJSON meta (network this) view
                                (chain_height (chain this)))))
      end
  | GET_tx_address =>
      do address <- lift (str valid "address");
      run enforce (truthy address) "Address is required.";
      run enforce (negb (spv this)) "Cannot get TX in SPV mode.";
      do addr <- lift (fromString P address (network this));
      do metas <- getMetaByAddress this (VAddr addr);
      do result <- metasJSON this metas [];
      ret (json 200 (Many result))
  | POST_tx_address =>
      do address <- lift (array valid "addresses");
      run enforce (truthy address) "Address is required.";
      run enforce (negb (spv this)) "Cannot get TX in SPV mode.";
      do metas <- getMetaByAddress this address;
      do result <- metasJSON this metas [];
      ret (json 200 (Many result))
  end.

(** *** Error wiring: [init] *)

(** The event emitters involved: the facade and its sub-indexes. *)
Inductive SubIndex := TheTxIndex | TheAddrIndex | TheMempoolIndex.

#[global] Instance SubIndex_eq_dec : EqDecision SubIndex.
Proof. solve_decision. Defined.

Inductive Emitter :=
| Facade
| Sub (s : SubIndex).

(** A listener of the 'error' event.  [Reemit] is the arrow function
    [err => this.emit('error', err)] that [init] registers; any other
    listener is an opaque callback that returns or throws. *)
Inductive Listener :=
| Reemit
| Callback (id : nat) (throws : bool).

(** The 'error' listeners of every emitter, in registration order.  The
    facade only ever carries callbacks: [init] calls [on] on the
    sub-indexes alone. *)
Record Wiring := {
  facade_listeners : list (nat * bool);
  sub_listeners : SubIndex -> list Listener
}.

(** [emitter.on('error', listener)] appends. *)
Definition on (w : Wiring) (s : SubIndex) (l : Listener) : Wiring :=
  {| facade_listeners := facade_listeners w;
     sub_listeners := fun s' =>
       if decide (s' = s) then sub_listeners w s' ++ [l]
       else sub_listeners w s' |}.

Definition configured (this : t) (s : SubIndex) : bool :=
  match s with
  | TheTxIndex => bool_decide (is_Some (txindex this))
  | TheAddrIndex => bool_decide (is_Some (addrindex this))
  | TheMempoolIndex => true
  end.

Definition init (this : t) (w : Wiring) : Wiring :=
  let w := match txindex this with
           | Some _ => on w TheTxIndex Reemit
           | None => w
           end in
  let w := match addrindex this with
           | Some _ => on w TheAddrIndex Reemit
           | None => w
           end in
  on w TheMempoolIndex Reemit.

Inductive Event :=
| Emitted (e : Emitter) (err : Error)
| Invoked (id : nat) (err : Error).

(** What an emission did: the events, in order, and whether [emit]
    returned ([None]) or threw. *)
Definition Emission : Type := (list Event * option Error)%type.

Fixpoint runCallbacks (ls : list (nat * bool)) (err : Error) : Emission :=
  match ls with
  | [] => ([], None)
  | (id, throws) :: rest =>
      if throws
      then ([Invoked id err], Some (Thrown "listener"))
      else let '(evs, r) := runCallbacks rest err in
           (Invoked id err :: evs, r)
  end.

(** Node's [emit('error', err)]: without a listener the error itself is
    thrown; otherwise the listeners run in order and an exception of a
    listener ends the emission. *)
Definition emitFacade (w : Wiring) (err : Error) : Emission :=
  match facade_listeners w with
  | [] => ([Emitted Facade err], Some err)
  | ls => let '(evs, r) := runCallbacks ls err in
          (Emitted Facade err :: evs, r)
  end.

Fixpoint runListeners (w : Wiring) (ls : list Listener) (err : Error)
    : Emission :=
  match ls with
  | [] => ([], None)
  | l :: rest =>
      let '(evs, r) :=
        match l with
        | Reemit => emitFacade w err
        | Callback id throws =>
            ([Invoked id err],
             if throws then Some (Thrown "listener") else None)
        end in
      match r with
      | Some e => (evs, Some e)
      | None => let '(evs', r') := runListeners w rest err in
                (evs ++ evs', r')
      end
  end.

(** A listener that does not throw by itself. *)
Definition quiet (l : Listener) : bool :=
  match l with
  | Callback _ true => false
  | _ => true
  end.

Definition emitSub (w : Wiring) (s : SubIndex) (err : Error) : Emission :=
  match sub_listeners w s with
  | [] => ([Emitted (Sub s) err], Some err)
  | ls => let '(evs, r) := runListeners w ls err in
          (Emitted (Sub s) err :: evs, r)
  end.

End FullNodeIndexer.

(** ** The test helper [less] (test/indexer-test.js) *)

(** The 32 bytes of a hash, least significant first. *)
Definition hashBytes (h : Hash) : list Z :=
  map (fun i => Z.land (Z.shiftr h (8 * Z.of_nat i)) 255) (seq 0 32).

(** The loop [for (let i = 31; i >= 0; i--)] with [n = i + 1]. *)
Fixpoint lessFrom (n : nat) (ha hb : list Z) : bool :=
  match n with
  | O => false
  | S i =>
      let a := nth i ha 0 in
      let b := nth i hb 0 in
      if Z.ltb a b then true
      else if Z.ltb b a then false
      else lessFrom i ha hb
  end.

Definition less (a b : TX) : bool :=
  lessFrom 32 (hashBytes (tx_hash a)) (hashBytes (tx_hash b)).

(** Modelled from the spec: a block: its header data and its transactions
    in serialization order. *)
Record Block := mkBlock {
  block_hash : Hash;
  block_prev : Hash;
  block_time : Z;
  block_txs : list TX
}.

#[global] Instance Block_eq_dec : EqDecision Block.
Proof. solve_decision. Defined.

(** Modelled from the spec: the header metadata [hash, height,
    previous-hash] of a block. *)
Record ChainEntry := mkEntry {
  entry_hash : Hash;
  entry_height : nat;
  entry_prev : Hash
}.

(** Modelled from the spec: the entry of a block at a height. *)
Definition entryOf (height : nat) (b : Block) : ChainEntry :=
  {| entry_hash := block_hash b;
     entry_height := height;
     entry_prev := block_prev b |}.

(** Modelled from the spec: the coin derived from output [i] of a
    transaction and its confirmation height. *)
Definition coinOf (entry : ChainEntry) (t : TX) (i : nat) (o : Output)
    : Coin :=
  {| coin_hash := tx_hash t;
     coin_index := i;
     coin_value := out_value o;
     coin_address := out_address o;
     coin_height := Z.of_nat (entry_height entry);
     coin_coinbase := isCoinbase t |}.

(** ** The transaction index *)

Module TXIndexer.

(** Modelled from the spec: lib/indexer/txindexer.js is not part of the
    verified slice.  The index maps a transaction hash to its
    metadata. *)
Abbreviation Content := (gmap Hash TXMeta).

(** Modelled from the spec: the confirmation context
    [{tx, height, block hash, time}] recorded for a transaction. *)
Definition metaOf (entry : ChainEntry) (b : Block) (t : TX) : TXMeta :=
  {| meta_tx := t;
     meta_height := Z.of_nat (entry_height entry);
     meta_block := entry_hash entry;
     meta_time := block_time b |}.

(** Modelled from the spec: [indexBlock] records the metadata of every
    transaction of the block, in block order. *)
Definition indexBlock (entry : ChainEntry) (b : Block) (m : Content)
    : Content :=
  foldl (fun m t => <[tx_hash t := metaOf entry b t]> m) m (block_txs b).

(** Modelled from the spec: [unindexBlock] removes, in reverse block
    order, what [indexBlock] added. *)
Definition unindexBlock (entry : ChainEntry) (b : Block) (m : Content)
    : Content :=
  foldl (fun m t => delete (tx_hash t) m) m (reverse (block_txs b)).

(** Modelled from the spec: the read accessor [getMeta(hash)]. *)
Definition getMeta (m : Content) (hash : Hash) : option TXMeta :=
  m !! hash.

(** Modelled from the spec: [getSpentView(tx)] rebuilds, from the
    index's own records, the coins that the inputs of [tx] spend. *)
Definition getSpentView (m : Content) (t : TX) : CoinView :=
  foldl (fun (v : CoinView) (op : Outpoint) =>
           match m !! op.1 with
           | Some meta =>
               match tx_outputs (meta_tx meta) !! op.2 with
               | Some o =>
                   <[op := {| coin_hash := op.1;
                              coin_index := op.2;
                              coin_value := out_value o;
                              coin_address := out_address o;
                              coin_height := meta_height meta;
                              coin_coinbase := isCoinbase (meta_tx meta)
                           |}]> v
               | None => v
               end
           | None => v
           end) ∅ (tx_inputs t).

End TXIndexer.

(** ** The address index *)

Module AddrIndexer.

(** Modelled from the spec: lib/indexer/addrindexer.js is not part of
    the verified slice.  The address entries of the index: the
    associations (address, transaction hash), the coins by outpoint, and
    for every outpoint that has been spent the hash of the transaction
    that marked it spent. *)
Record Content := mkContent {
  entries : gset (Address * Hash);
  coins : gmap Outpoint Coin;
  spent : gmap Outpoint Hash
}.

(** Modelled from the spec: the address index before any block. *)
Definition empty : Content := {| entries := ∅; coins := ∅; spent := ∅ |}.

(** Modelled from the spec: the addresses of the tracked coins a
    transaction spends. *)
Definition inputAddresses (m : gmap Outpoint Coin) (t : TX)
    : list Address :=
  omap (fun op => coin_address <$> m !! op) (tx_inputs t).

(** Modelled from the spec: the addresses a transaction pays. *)
Definition outputAddresses (t : TX) : list Address :=
  out_address <$> tx_outputs t.

(** Modelled from the spec: the address associations of a transaction,
    (address, transaction hash) for every address it touches. *)
Definition associations (m : gmap Outpoint Coin) (t : TX)
    : gset (Address * Hash) :=
  list_to_set ((fun a => (a, tx_hash t))
                 <$> (inputAddresses m t ++ outputAddresses t)).

(** Modelled from the spec: a spend marks its outpoint spent by the
    spending transaction, whether the coin is tracked already or its
    transaction comes later in the block; an outpoint that is marked
    keeps its mark. *)
Definition spendInputs (sp : gmap Outpoint Hash) (t : TX)
    : gmap Outpoint Hash :=
  foldl (fun sp op =>
           match sp !! op with
           | Some _ => sp
           | None => <[op := tx_hash t]> sp
           end) sp (tx_inputs t).

(** Modelled from the spec: restore what the transaction marked spent, in
    reverse input order; a mark of another transaction stays. *)
Definition restoreInputs (sp : gmap Outpoint Hash) (t : TX)
    : gmap Outpoint Hash :=
  foldl (fun sp op =>
           match sp !! op with
           | Some h => if decide (h = tx_hash t) then delete op sp else sp
           | None => sp
           end) sp (reverse (tx_inputs t)).

(** Modelled from the spec: record the new coins of a transaction, one per
    output, under (hash, output index). *)
Definition addOutputs (entry : ChainEntry) (t : TX)
    (m : gmap Outpoint Coin) : gmap Outpoint Coin :=
  foldl (fun m (io : nat * Output) =>
           <[(tx_hash t, io.1) := coinOf entry t io.1 io.2]> m)
        m (imap pair (tx_outputs t)).

(** Modelled from the spec: the outpoints a transaction creates, in output
    order. *)
Definition outKeys (t : TX) : list Outpoint :=
  (fun io : nat * Output => (tx_hash t, io.1)) <$> imap pair (tx_outputs t).

(** Modelled from the spec: remove the coins a transaction created, in
    reverse output order. *)
Definition removeOutputs (t : TX) (m : gmap Outpoint Coin)
    : gmap Outpoint Coin :=
  foldl (fun m (io : nat * Output) => delete (tx_hash t, io.1) m)
        m (reverse (imap pair (tx_outputs t))).

(** Modelled from the spec: one transaction of [indexBlock]: its address
    associations, its new coins, and its spends.  A spend is recognized
    on either side of the coin it spends: after it when the coin is
    there, before it through the mark the spend leaves. *)
Definition indexTX (entry : ChainEntry) (s : Content) (t : TX) : Content :=
  {| entries := entries s ∪ associations (coins s) t;
     coins := addOutputs entry t (coins s);
     spent := spendInputs (spent s) t |}.

(** Modelled from the spec: one transaction of [unindexBlock]: the new
    coins go, what it marked spent is unspent again, and its address
    associations are removed. *)
Definition unindexTX (s : Content) (t : TX) : Content :=
  let restored := removeOutputs t (coins s) in
  {| entries := entries s ∖ associations restored t;
     coins := restored;
     spent := restoreInputs (spent s) t |}.

(** Modelled from the spec: [indexBlock], in block order. *)
Definition indexBlock (entry : ChainEntry) (b : Block) (s : Content)
    : Content :=
  foldl (indexTX entry) s (block_txs b).

(** Modelled from the spec: [unindexBlock], in reverse block order. *)
Definition unindexBlock (entry : ChainEntry) (b : Block) (s : Content)
    : Content :=
  foldl unindexTX s (reverse (block_txs b)).

(** Modelled from the spec: the unspent coins of one address: a coin
    exists for the reads only while its outpoint is not marked spent. *)
Definition coinsOf (s : Content) (a : Address) : list Coin :=
  omap (fun kc : Outpoint * Coin =>
          if bool_decide (spent s !! kc.1 = None)
             && bool_decide (coin_address kc.2 = a)
          then Some kc.2 else None)
       (map_to_list (coins s)).

(** Modelled from the spec: [getCoinsByAddress(addrs)] treats each
    address on its own and joins the results, without removing
    duplicates. *)
Definition getCoinsByAddress (s : Content) (addrs : list Address)
    : list Coin :=
  concat (coinsOf s <$> addrs).

(** Modelled from the spec: the transaction hashes associated with one
    address. *)
Definition hashesOf (s : Content) (a : Address) : list Hash :=
  omap (fun ah : Address * Hash =>
          if bool_decide (ah.1 = a) then Some ah.2 else None)
       (elements (entries s)).

(** Modelled from the spec: [getHashesByAddress(addrs)]. *)
Definition getHashesByAddress (s : Content) (addrs : list Address)
    : list Hash :=
  concat (hashesOf s <$> addrs).

(** What the index holds comes from the transactions of hashes [hs]:
    every association and every spend mark names one of them, and every
    coin sits under its own outpoint, of one of them. *)
Definition tracked (hs : list Hash) (s : Content) : Prop :=
  (forall a h, (a, h) ∈ entries s -> h ∈ hs)
  /\ (forall op c, coins s !! op = Some c ->
        coin_hash c = op.1 /\ coin_index c = op.2 /\ op.1 ∈ hs)
  /\ (forall op h, spent s !! op = Some h -> h ∈ hs).

End AddrIndexer.

(** ** The indexer core *)

Module Indexer.

(** Modelled from the spec: lib/indexer/indexer.js is not part of the
    verified slice.  The capability set a concrete index gives the
    engine: its empty content and its two mutation hooks. *)
Class Hooks (C : Type) := {
  emptyContent : C;
  indexBlock : ChainEntry -> Block -> C -> C;
  unindexBlock : ChainEntry -> Block -> C -> C
}.

#[global] Instance TXIndexer_hooks : Hooks TXIndexer.Content := {|
  emptyContent := ∅;
  indexBlock := TXIndexer.indexBlock;
  unindexBlock := TXIndexer.unindexBlock
|}.

#[global] Instance AddrIndexer_hooks : Hooks AddrIndexer.Content := {|
  emptyContent := AddrIndexer.empty;
  indexBlock := AddrIndexer.indexBlock;
  unindexBlock := AddrIndexer.unindexBlock
|}.

(** Modelled from the spec: the chain collaborator.  [best] holds the
    canonical blocks of heights 1, 2, ... above the genesis block;
    [blocks] holds every block the chain has stored, by hash, the
    abandoned ones included. *)
Record Chain := mkChain {
  genesis : Hash;
  best : list Block;
  blocks : gmap Hash Block
}.

(** Modelled from the spec: the chain's current tip height. *)
Definition height (c : Chain) : nat := length (best c).

(** Modelled from the spec: [getBlock(height)]; the genesis block itself
    is below the indexes' floor. *)
Definition getBlock (c : Chain) (h : nat) : option Block :=
  match h with
  | O => None
  | S i => best c !! i
  end.

(** Modelled from the spec: the hash of [getEntry(height)]. *)
Definition getHash (c : Chain) (h : nat) : option Hash :=
  match h with
  | O => Some (genesis c)
  | S i => block_hash <$> best c !! i
  end.

(** Modelled from the spec: the hash of the tip of the blocks [bs] above a
    genesis block of hash [g]. *)
Definition tipHash (g : Hash) (bs : list Block) : Hash :=
  match last bs with
  | Some b => block_hash b
  | None => g
  end.

(** Modelled from the spec: the chain accepts a block on top of its tip. *)
Definition addBlock (c : Chain) (b : Block) : Chain :=
  {| genesis := genesis c;
     best := best c ++ [b];
     blocks := <[block_hash b := b]> (blocks c) |}.

(** Modelled from the spec: the persisted progress record
    [{height, hash}]. *)
Record IndexState := mkState {
  st_height : nat;
  st_hash : Hash
}.

(** Modelled from the spec: the states [DETACHED], [SYNCING], [SYNCED] of
    the core. *)
Inductive Status := DETACHED | SYNCING | SYNCED.

(** Modelled from the spec: an index: its attachment status, its
    persisted progress and its content. *)
Record Index (C : Type) := mkIndex {
  status : Status;
  state : IndexState;
  content : C
}.
Arguments mkIndex {C} _ _ _.
Arguments status {C} _.
Arguments state {C} _.
Arguments content {C} _.

Section Engine.
Context {C : Type} `{Hooks C}.

(** Modelled from the spec: step 2 of the sync algorithm.  While the
    stored hash differs from the chain's hash at the stored height,
    undo the block of that hash and step down, to the fork point or to
    the genesis floor.  A block the chain cannot produce is fatal. *)
Fixpoint rollback (c : Chain) (h : nat) (hash : Hash) (ct : C)
    : Res (IndexState * C) :=
  match h with
  | O => Ok (mkState O hash, ct)
  | S h' =>
      if bool_decide (getHash c h = Some hash)
      then Ok (mkState h hash, ct)
      else match blocks c !! hash with
           | None => Err (Thrown "block not found")
           | Some b =>
               rollback c h' (block_prev b)
                        (unindexBlock (entryOf h b) b ct)
           end
  end.

(** Modelled from the spec: step 3 of the sync algorithm.  Fetch and
    connect the next [n] canonical blocks, height by height. *)
Fixpoint forward (c : Chain) (n : nat) (st : IndexState) (ct : C)
    : Res (IndexState * C) :=
  match n with
  | O => Ok (st, ct)
  | S n' =>
      let h := S (st_height st) in
      match getBlock c h with
      | None => Err (Thrown "block not found")
      | Some b =>
          forward c n' (mkState h (block_hash b))
                  (indexBlock (entryOf h b) b ct)
      end
  end.

(** Modelled from the spec: the sync algorithm; when it settles the
    index is [SYNCED] (the "chain tip" notification). *)
Definition sync (c : Chain) (ix : Index C) : Res (Index C) :=
  match rollback c (st_height (state ix)) (st_hash (state ix))
                 (content ix) with
  | Err e => Err e
  | Ok (st, ct) =>
      match forward c (height c - st_height st) st ct with
      | Err e => Err e
      | Ok (st', ct') => Ok (mkIndex SYNCED st' ct')
      end
  end.

(** Modelled from the spec: a fresh index: nothing applied above the
    genesis floor. *)
Definition fresh (c : Chain) : Index C :=
  mkIndex DETACHED (mkState O (genesis c)) emptyContent.

(** Modelled from the spec: [open()] attaches the index and catches up. *)
Definition open (c : Chain) (ix : Index C) : Res (Index C) :=
  sync c (mkIndex SYNCING (state ix) (content ix)).

(** Modelled from the spec: [connect()] attaches again and catches up. *)
Definition connect (c : Chain) (ix : Index C) : Res (Index C) :=
  sync c (mkIndex SYNCING (state ix) (content ix)).

(** Modelled from the spec: [disconnect()] detaches and keeps the
    persisted state. *)
Definition disconnect (ix : Index C) : Index C :=
  mkIndex DETACHED (state ix) (content ix).

(** Modelled from the spec: a chain event reaches an attached index,
    which syncs; a detached index is not subscribed. *)
Definition notify (c : Chain) (ix : Index C) : Res (Index C) :=
  match status ix with
  | DETACHED => Ok ix
  | _ => sync c ix
  end.

(** Modelled from the spec: the chain accepts the blocks [bs] one by one
    and notifies the index after each. *)
Fixpoint advance (c : Chain) (bs : list Block) (ix : Index C)
    : Res (Chain * Index C) :=
  match bs with
  | [] => Ok (c, ix)
  | b :: rest =>
      let c' := addBlock c b in
      match notify c' ix with
      | Err e => Err e
      | Ok ix' => advance c' rest ix'
      end
  end.

(** *** The reference: direct sequential indexing from genesis *)

(** Modelled from the spec: direct sequential indexing of the blocks [bs]
    on top of height [h]. *)
Fixpoint indexFrom (h : nat) (bs : list Block) (ct : C) : C :=
  match bs with
  | [] => ct
  | b :: rest => indexFrom (S h) rest (indexBlock (entryOf (S h) b) b ct)
  end.

(** Modelled from the spec: direct sequential indexing of a canonical
    chain from genesis. *)
Definition indexChain (bs : list Block) : C :=
  indexFrom O bs emptyContent.

(** Modelled from the spec: the index that has settled on the canonical
    blocks [bs]: [IndexState] is the tip, the content is that of
    sequential indexing. *)
Definition settled (g : Hash) (bs : list Block) : Index C :=
  mkIndex SYNCED (mkState (length bs) (tipHash g bs)) (indexChain bs).

End Engine.

(** *** What the chain collaborator guarantees *)

(** Modelled from the spec: the chain collaborator's entries are linked:
    every block names its predecessor. *)
Fixpoint linked (prev : Hash) (bs : list Block) : bool :=
  match bs with
  | [] => true
  | b :: rest => bool_decide (block_prev b = prev)
                 && linked (block_hash b) rest
  end.

(** Modelled from the spec: the chain collaborator can produce every one
    of these blocks by its hash. *)
Definition stored (m : gmap Hash Block) (bs : list Block) : bool :=
  forallb (fun b => bool_decide (m !! block_hash b = Some b)) bs.

(** Modelled from the spec: the transactions of a chain, in order. *)
Definition chainTXs (bs : list Block) : list TX :=
  concat (block_txs <$> bs).

(** Modelled from the spec: the chain engine's guarantee the indexes rest
    on: a transaction hash names one transaction of the chain, no hash
    occurs twice.  The order of dependent transactions inside a block is
    left to the block producer. *)
Definition validChain (bs : list Block) : bool :=
  bool_decide (NoDup (tx_hash <$> chainTXs bs)).

(** Modelled from the spec: a block as the miner of the tests produces it:
    one coinbase with one output. *)
Definition coinbaseOnly (b : Block) : bool :=
  match block_txs b with
  | [t] =>
      match tx_inputs t, tx_outputs t with
      | [], [_] => true
      | _, _ => false
      end
  | _ => false
  end.

(** Modelled from the spec: the block has an output that pays the
    address. *)
Definition pays (a : Address) (b : Block) : bool :=
  bool_decide (a ∈ out_address <$> concat (tx_outputs <$> block_txs b)).

(** The round-trip law of a concrete index on valid chains. *)
Definition RoundTrip {C : Type} `{Hooks C} : Prop :=
  forall (pre : list Block) (b : Block),
    validChain (pre ++ [b]) = true ->
    unindexBlock (entryOf (S (length pre)) b) b (indexChain (pre ++ [b]))
    = indexChain pre.

End Indexer.

(** ** The persisted indexes behind the aggregator *)

Module Persisted.

(** The addresses of an argument of address objects. *)
Definition addressesOf (v : Value) : list Address :=
  match v with
  | VAddr a => [a]
  | VArr l => omap (fun x => match x with VAddr a => Some a | _ => None end) l
  | _ => []
  end.

(** Modelled from the spec: the read surface of the transaction index
    over its committed content. *)
Definition txindexer (m : TXIndexer.Content) : FullNodeIndexer.TXIndexer :=
  {| FullNodeIndexer.txi_hasTX := fun v =>
       Ok (match v with
           | VBuf h => bool_decide (is_Some (m !! h))
           | _ => false
           end);
     FullNodeIndexer.txi_getMeta := fun v =>
       Ok (match v with
           | VBuf h => TXIndexer.getMeta m h
           | _ => None
           end);
     FullNodeIndexer.txi_getSpentView := fun t =>
       Ok (TXIndexer.getSpentView m t) |}.

(** Modelled from the spec: the read surface of the address index over
    its committed content. *)
Definition addrindexer (s : AddrIndexer.Content)
    : FullNodeIndexer.AddrIndexer :=
  {| FullNodeIndexer.ai_getHashesByAddress := fun v =>
       Ok (AddrIndexer.getHashesByAddress s (addressesOf v));
     FullNodeIndexer.ai_getCoinsByAddress := fun v =>
       Ok (AddrIndexer.getCoinsByAddress s (addressesOf v)) |}.

(** A full node whose two persisted indexes have settled on the canonical
    blocks [bs]. *)
Definition fullnode (chain : FullNodeIndexer.Chain)
    (mempool : FullNodeIndexer.MempoolIndexer) (bs : list Block)
    : FullNodeIndexer.t :=
  {| FullNodeIndexer.chain := chain;
     FullNodeIndexer.mempoolindex := mempool;
     FullNodeIndexer.spv := FullNodeIndexer.chain_spv chain;
     FullNodeIndexer.txindex := Some (txindexer (Indexer.indexChain bs));
     FullNodeIndexer.addrindex := Some (addrindexer (Indexer.indexChain bs));
     FullNodeIndexer.network := None |}.

End Persisted.

(** ** The scenario of test/indexer-test.js *)

Module Scenario.
Import Indexer.

(** The miner's receive address. *)
Definition miner : Address := 7.

(** The wallet address of the dependent transactions. *)
Definition wallet : Address := 9.

Definition coinbase (h : Hash) : TX :=
  mkTX h [] [mkOutput 5000000000 miner].

(** [n] blocks on top of [prev], each holding one coinbase that pays the
    miner; the block at height [k] has hash [base + k]. *)
Fixpoint mine (base : Z) (prev : Hash) (n : nat) (k : Z) : list Block :=
  match n with
  | O => []
  | S n' =>
      mkBlock (base + k) prev k [coinbase (1000 + base + k)]
      :: mine base (base + k) n' (k + 1)
  end.

(** Heights 1 to 20, then the two competing branches: ten blocks that
    are abandoned, eleven that are adopted. *)
Definition common : list Block := mine 0 0 20 1.
Definition abandoned : list Block := mine 100 20 10 21.
Definition adopted : list Block := mine 200 20 11 21.

Definition store : gmap Hash Block :=
  list_to_map ((fun b => (block_hash b, b))
                 <$> (common ++ abandoned ++ adopted)).

(** The dependent pair of the last test: [tx2] spends [tx1] and has the
    smaller hash. *)
Definition tx1 : TX := mkTX 900 [(1001, O)] [mkOutput 100000000 wallet].
Definition tx2 : TX := mkTX 5 [(900, O)] [mkOutput 42 wallet].
Definition block1 : Block := mkBlock 21 20 21 [coinbase 1021; tx1; tx2].

(** The chain of the first test, ten blocks, and the ten blocks mined
    while the indexes are detached. *)
Definition first10 : list Block := take 10 common.
Definition missed10 : list Block := drop 10 common.

(** A node for the aggregator: an empty mempool but for one unconfirmed
    transaction, a transaction index that knows the first coinbase, an
    address index that reports it. *)
Definition meta1 : TXMeta := mkTXMeta (coinbase 1001) 1 1 1.
Definition unconfirmed : TXMeta := mkTXMeta tx1 (-1) 0 0.

Definition mempool : FullNodeIndexer.MempoolIndexer :=
  {| FullNodeIndexer.mp_hasTX := fun _ => false;
     FullNodeIndexer.mp_getMeta := fun _ => Ok None;
     FullNodeIndexer.mp_getSpentView := fun _ => Ok ∅;
     FullNodeIndexer.mp_getMetaByAddress := fun _ => Ok [unconfirmed] |}.

Definition txidx : FullNodeIndexer.TXIndexer :=
  {| FullNodeIndexer.txi_hasTX := fun _ => Ok true;
     FullNodeIndexer.txi_getMeta := fun v =>
       match v with
       | VBuf 1001 => Ok (Some meta1)
       | _ => Ok None
       end;
     FullNodeIndexer.txi_getSpentView := fun _ => Ok ∅ |}.

Definition addridx : FullNodeIndexer.AddrIndexer :=
  {| FullNodeIndexer.ai_getHashesByAddress := fun _ => Ok [1001];
     FullNodeIndexer.ai_getCoinsByAddress := fun _ => Ok [] |}.

Definition livechain : FullNodeIndexer.Chain :=
  {| FullNodeIndexer.chain_height := 31;
     FullNodeIndexer.chain_spv := false;
     FullNodeIndexer.chain_getCoinView := fun _ => Ok ∅ |}.

Definition node (indexTx indexAddress : bool) : FullNodeIndexer.Node :=
  {| FullNodeIndexer.node_chain := livechain;
     FullNodeIndexer.node_index_tx := indexTx;
     FullNodeIndexer.node_index_address := indexAddress;
     FullNodeIndexer.node_new_MempoolIndexer := mempool;
     FullNodeIndexer.node_new_TXIndexer := txidx;
     FullNodeIndexer.node_new_AddrIndexer := addridx |}.

Definition full : FullNodeIndexer.t :=
  FullNodeIndexer.constructor (node true true).
Definition txOnly : FullNodeIndexer.t :=
  FullNodeIndexer.constructor (node true false).
Definition bare : FullNodeIndexer.t :=
  FullNodeIndexer.constructor (node false false).

(** An address parser that knows one address. *)
Definition primitives : FullNodeIndexer.Primitives :=
  {| FullNodeIndexer.fromString := fun v _ =>
       match v with
       | VStr "miner" => Ok miner
       | _ => Err (Thrown "invalid address")
       end |}.

(** A request whose parameters all read as [v]. *)
Definition request (v : Value) : FullNodeIndexer.Validator :=
  {| FullNodeIndexer.str := fun _ => Ok v;
     FullNodeIndexer.array := fun _ => Ok v;
     FullNodeIndexer.brhash := fun _ => Ok v |}.

(** No listener anywhere, as after construction. *)
Definition unwired : FullNodeIndexer.Wiring :=
  {| FullNodeIndexer.facade_listeners := [];
     FullNodeIndexer.sub_listeners := fun _ => [] |}.

End Scenario.


(** ** Opening and closing (lib/indexer/fullnodeindexer.js) *)

Module Lifecycle.

(** The calls [open()] and [close()] make on the persisted indexes. *)
Inductive Call := TxOpen | AddrOpen | TxClose | AddrClose.

(** How each of those calls ends. *)
Record Outcomes := {
  txOpen : Res unit;
  addrOpen : Res unit;
  txClose : Res unit;
  addrClose : Res unit
}.

(** A run: the calls made, in order, and how it ended. *)
Definition Run : Type := (list Call * Res unit)%type.

(** [await first; rest] *)
Definition andThen (first rest : Run) : Run :=
  match first with
  | (l, Ok _) => let '(l', r) := rest in (l ++ l', r)
  | (l, Err e) => (l, Err e)
  end.

(** [if (index) await index.method();] *)
Definition whenConfigured {A} (index : option A) (c : Call) (r : Res unit)
    : Run :=
  match index with
  | Some _ => ([c], r)
  | None => ([], Ok tt)
  end.

Definition open (this : FullNodeIndexer.t) (o : Outcomes) : Run :=
  andThen (whenConfigured (FullNodeIndexer.txindex this) TxOpen (txOpen o))
          (whenConfigured (FullNodeIndexer.addrindex this) AddrOpen
                          (addrOpen o)).

Definition close (this : FullNodeIndexer.t) (o : Outcomes) : Run :=
  andThen (whenConfigured (FullNodeIndexer.txindex this) TxClose (txClose o))
          (whenConfigured (FullNodeIndexer.addrindex this) AddrClose
                          (addrClose o)).

End Lifecycle.

(** ** The plugin (plugin.js) *)

Module Plugin.

Record t := {
  indexer : FullNodeIndexer.t
}.

Definition constructor (node : FullNodeIndexer.Node) : t :=
  {| indexer := FullNodeIndexer.constructor node |}.

Definition init (this : t) (w : FullNodeIndexer.Wiring)
    : FullNodeIndexer.Wiring :=
  FullNodeIndexer.init (indexer this) w.

Definition open (this : t) (o : Lifecycle.Outcomes) : Lifecycle.Run :=
  Lifecycle.open (indexer this) o.

Definition close (this : t) (o : Lifecycle.Outcomes) : Lifecycle.Run :=
  Lifecycle.close (indexer this) o.

(** [plugin.id] *)
Definition id : string := "indexer".

(** [plugin.init] *)
Definition plugin_init (node : FullNodeIndexer.Node) : t :=
  constructor node.

End Plugin.

(** ** Reading a response *)

Module Http.

Definition jsonNetwork (j : FullNodeIndexer.JSON) : option Network :=
  match j with
  | FullNodeIndexer.CoinJSON _ net => net
  | FullNodeIndexer.MetaJSON _ net _ _ => net
  end.

Definition bodyJSON (b : FullNodeIndexer.Body) : list FullNodeIndexer.JSON :=
  match b with
  | FullNodeIndexer.NoBody => []
  | FullNodeIndexer.One j => [j]
  | FullNodeIndexer.Many l => l
  end.

(** The message of the first guard of a route. *)
Definition requiredMessage (r : FullNodeIndexer.Route) : string :=
  match r with
  | FullNodeIndexer.GET_tx => "Hash is required."
  | _ => "Address is required."
  end.

(** The message of the second guard of a route. *)
Definition spvMessage (r : FullNodeIndexer.Route) : string :=
  match r with
  | FullNodeIndexer.GET_coin_address | FullNodeIndexer.POST_coin_address =>
      "Cannot get coins in SPV mode."
  | _ => "Cannot get TX in SPV mode."
  end.

(** The facade's 'error' callbacks, none of which throws, as events. *)
Definition invocations (ls : list (nat * bool)) (err : Error)
    : list FullNodeIndexer.Event :=
  (fun l : nat * bool => FullNodeIndexer.Invoked l.1 err) <$> ls.

End Http.

(** ** More of the scenario *)

Module Examples.

(** Sub-indexes that open; a transaction index that fails to close. *)
Definition stuck : Lifecycle.Outcomes :=
  {| Lifecycle.txOpen := Ok tt;
     Lifecycle.addrOpen := Ok tt;
     Lifecycle.txClose := Err (Thrown "database is busy");
     Lifecycle.addrClose := Ok tt |}.

(** A transaction index that fails to open. *)
Definition locked : Lifecycle.Outcomes :=
  {| Lifecycle.txOpen := Err (Thrown "database is locked");
     Lifecycle.addrOpen := Ok tt;
     Lifecycle.txClose := Ok tt;
     Lifecycle.addrClose := Ok tt |}.

(** One listener on the facade, which returns. *)
Definition listened : FullNodeIndexer.Wiring :=
  {| FullNodeIndexer.facade_listeners := [(1%nat, false)];
     FullNodeIndexer.sub_listeners := fun _ => [] |}.

(** A node in SPV mode. *)
Definition spvNode : FullNodeIndexer.t :=
  {| FullNodeIndexer.chain := Scenario.livechain;
     FullNodeIndexer.mempoolindex := Scenario.mempool;
     FullNodeIndexer.spv := true;
     FullNodeIndexer.txindex := Some Scenario.txidx;
     FullNodeIndexer.addrindex := Some Scenario.addridx;
     FullNodeIndexer.network := None |}.

(** An address index that reports a hash the transaction index of the
    scenario does not know, after one it knows. *)
Definition drifted : FullNodeIndexer.t :=
  {| FullNodeIndexer.chain := Scenario.livechain;
     FullNodeIndexer.mempoolindex := Scenario.mempool;
     FullNodeIndexer.spv := false;
     FullNodeIndexer.txindex := Some Scenario.txidx;
     FullNodeIndexer.addrindex :=
       Some {| FullNodeIndexer.ai_getHashesByAddress :=
                 fun _ => Ok [1001; 4242; 1001];
               FullNodeIndexer.ai_getCoinsByAddress := fun _ => Ok [] |};
     FullNodeIndexer.network := None |}.

End Examples.

(** ** The block of the last test *)

Module Dependent.
Import Scenario.

(** The block of the last test, as the job is filled: the spending
    transaction [tx2] is pushed before [tx1], the one it spends. *)
Definition testBlock : Block :=
  mkBlock 21 20 21 [coinbase 1021; tx2; tx1].

(** A reorganization that brings such a block in: one block is lost, two
    are won; [tx1] spends the coinbase of the first block. *)
Definition lost : list Block := mine 100 20 1 21.
Definition won : list Block :=
  [mkBlock 221 20 21 [coinbase 1221; tx2; tx1];
   mkBlock 222 221 22 [coinbase 1222]].

Definition known : gmap Hash Block :=
  list_to_map ((fun b => (block_hash b, b)) <$> (common ++ lost ++ won)).

End Dependent.

(** * Properties of the query aggregator *)

(** Run the monad as far as the known outcomes allow. *)
Ltac mrun :=
  cbn [bind ret throw call lift FullNodeIndexer.assert
       FullNodeIndexer.enforce FullNodeIndexer.collectMetas
       FullNodeIndexer.metasJSON fst snd app negb].

Section AggregatorFacts.
Import FullNodeIndexer.

(** The loop of [getMetaByAddress] when every hash resolves. *)
Lemma collectMetas_ok (txi : TXIndexer) (hashes : list Hash)
    (metas acc : list TXMeta) :
  Forall2 (fun h m => txi_getMeta txi (VBuf h) = Ok (Some m)) hashes metas ->
  collectMetas txi hashes acc
  = ((fun h => TxGetMeta (VBuf h)) <$> hashes, Ok (acc ++ metas)).
Proof.
  intros HF. revert acc.
  induction HF as [|h m hs ms Hh _ IH]; intros acc; mrun.
  - by rewrite app_nil_r.
  - rewrite Hh. mrun. rewrite IH. by rewrite <- app_assoc.
Qed.

(** The loop of [getMetaByAddress] stops with an error at a hash the
    transaction index does not know. *)
Lemma collectMetas_missing (txi : TXIndexer) (hashes : list Hash)
    (acc : list TXMeta) (h : Hash) :
  h ∈ hashes ->
  txi_getMeta txi (VBuf h) = Ok None ->
  exists l e, collectMetas txi hashes acc = (l, Err e).
Proof.
  intros Hin Hnone. revert acc.
  induction hashes as [|x xs IH]; intros acc.
  - by apply elem_of_nil in Hin.
  - mrun. destruct (txi_getMeta txi (VBuf x)) as [[m|]|e] eqn:Hx; mrun.
    + apply elem_of_cons in Hin as [->|Hin]; [congruence|].
      destruct (IH Hin (acc ++ [m])) as (l & e & ->). eauto.
    + eauto.
    + eauto.
Qed.

Lemma init_sub_listeners (this : t) (w : Wiring) (s : SubIndex) :
  configured this s = true ->
  sub_listeners (init this w) s = sub_listeners w s ++ [Reemit].
Proof.
  unfold init, configured.
  destruct s, (txindex this), (addrindex this); simpl; intros Hc;
    try done; by apply bool_decide_eq_true, is_Some_None in Hc.
Qed.

Lemma emitFacade_emits (w : Wiring) (err : Error) :
  Emitted Facade err ∈ (emitFacade w err).1.
Proof.
  unfold emitFacade. destruct (facade_listeners w) as [|l ls].
  - apply list_elem_of_here.
  - destruct (runCallbacks (l :: ls) err). apply list_elem_of_here.
Qed.

Lemma runListeners_reemit (w : Wiring) (pre : list Listener) (err : Error) :
  forallb quiet pre = true ->
  Emitted Facade err ∈ (runListeners w (pre ++ [Reemit]) err).1.
Proof.
  induction pre as [|l pre IH]; simpl; intros Hq.
  - pose proof (emitFacade_emits w err) as He.
    destruct (emitFacade w err) as [evs [e|]]; simpl in *; [done|].
    by rewrite app_nil_r.
  - apply andb_true_iff in Hq as [Hl Hq]. specialize (IH Hq).
    destruct l as [|id [|]]; simpl in *; try done.
    + pose proof (emitFacade_emits w err) as He.
      destruct (emitFacade w err) as [evs [e|]]; simpl in *; [done|].
      destruct (runListeners w (pre ++ [Reemit]) err).
      apply elem_of_app. by left.
    + destruct (runListeners w (pre ++ [Reemit]) err).
      by apply list_elem_of_further.
Qed.

End AggregatorFacts.

Section AggregatorClaims.
Import FullNodeIndexer.

(** C4. [getMeta(hash)] answers from the mempool index when it has an
    entry for the hash; otherwise from the transaction index when one
    is configured; otherwise with [null]. *)
Theorem getMeta_mempool_then_txindex (this : t) (hash : Value) :
  (forall m, mp_getMeta (mempoolindex this) hash = Ok (Some m) ->
             getMeta this hash = ([MempoolGetMeta hash], Ok (Some m)))
  /\ (forall txi, mp_getMeta (mempoolindex this) hash = Ok None ->
                  txindex this = Some txi ->
                  getMeta this hash
                  = ([MempoolGetMeta hash; TxGetMeta hash],
                     txi_getMeta txi hash))
  /\ (mp_getMeta (mempoolindex this) hash = Ok None ->
      txindex this = None ->
      getMeta this hash = ([MempoolGetMeta hash], Ok None)).
Proof.
  unfold getMeta. repeat split.
  - intros m ->. reflexivity.
  - intros txi -> ->. reflexivity.
  - intros -> ->. reflexivity.
Qed.

(** C5. [getMetaView(meta)] asks the mempool index exactly when
    [meta.height] is -1; otherwise the transaction index when one is
    configured; otherwise the live chain. *)
Theorem getMetaView_dispatch (this : t) (meta : TXMeta) :
  (meta_height meta = -1 ->
   getMetaView this meta
   = ([MempoolGetSpentView (meta_tx meta)],
      mp_getSpentView (mempoolindex this) (meta_tx meta)))
  /\ (forall txi, meta_height meta <> -1 -> txindex this = Some txi ->
      getMetaView this meta
      = ([TxGetSpentView (meta_tx meta)],
         txi_getSpentView txi (meta_tx meta)))
  /\ (meta_height meta <> -1 -> txindex this = None ->
      getMetaView this meta
      = ([ChainGetCoinView (meta_tx meta)],
         chain_getCoinView (chain this) (meta_tx meta)))
  /\ (MempoolGetSpentView (meta_tx meta) ∈ calls (getMetaView this meta)
      <-> meta_height meta = -1).
Proof.
  unfold getMetaView, call, calls.
  destruct (Z.eqb_spec (meta_height meta) (-1)) as [Heq|Hne].
  - repeat split; try done. intros _. apply list_elem_of_here.
  - repeat split; try done.
    + by intros txi _ ->.
    + by intros _ ->.
    + destruct (txindex this); simpl; intros Hin;
        apply list_elem_of_singleton in Hin; discriminate.
Qed.

(** C6. With both persisted indexes configured, [getMetaByAddress]
    returns the metadata of every hash the address index reports,
    followed by the mempool matches; and it fails when one of those
    hashes has no entry in the transaction index. *)
Theorem getMetaByAddress_both (this : t) (txi : TXIndexer)
    (ai : AddrIndexer) (addrs : Value) (hashes : list Hash)
    (Htx : txindex this = Some txi) (Hai : addrindex this = Some ai)
    (Hhashes : ai_getHashesByAddress ai
                 (if isArray addrs then addrs else VArr [addrs])
               = Ok hashes) :
  (forall mempool metas,
      mp_getMetaByAddress (mempoolindex this) addrs = Ok mempool ->
      Forall2 (fun h m => txi_getMeta txi (VBuf h) = Ok (Some m))
              hashes metas ->
      outcome (getMetaByAddress this addrs) = Ok (metas ++ mempool)
      /\ forall m, m ∈ metas ++ mempool <-> m ∈ mempool \/ m ∈ metas)
  /\ (forall h, h ∈ hashes -> txi_getMeta txi (VBuf h) = Ok None ->
      exists e, outcome (getMetaByAddress this addrs) = Err e).
Proof.
  unfold getMetaByAddress, outcome. rewrite Htx, Hai. split.
  - intros mempool metas -> HF.
    split; [|intros m; rewrite elem_of_app; tauto].
    mrun. rewrite Hhashes. mrun.
    rewrite (collectMetas_ok _ _ _ [] HF). by mrun.
  - intros h Hin Hnone.
    destruct (mp_getMetaByAddress (mempoolindex this) addrs) as [mp|e];
      mrun; [|eauto].
    rewrite Hhashes. mrun.
    destruct (collectMetas_missing txi hashes [] h Hin Hnone)
      as (l & e & ->).
    eauto.
Qed.

(** C7. [getCoinsByAddress(addrs)] is the address index's answer when
    an address index is configured, and the empty list otherwise. *)
Theorem getCoinsByAddress_delegates (this : t) (addrs : Value) :
  (forall ai, addrindex this = Some ai ->
              getCoinsByAddress this addrs
              = ([AddrGetCoinsByAddress addrs],
                 ai_getCoinsByAddress ai addrs))
  /\ (addrindex this = None ->
      getCoinsByAddress this addrs = ([], Ok [])).
Proof.
  unfold getCoinsByAddress. split.
  - by intros ai ->.
  - by intros ->.
Qed.

(** C8, as amended.  A handler whose validator raises an error fails
    with that error; a handler whose argument is missing (a falsy value),
    or that runs in SPV mode, throws an error with status 400; a
    single-address handler whose address does not parse fails with the
    parser's error.  In all three cases no call into the sub-indexes has
    been made. *)
Theorem handler_rejects_before_core (P : Primitives) (r : Route)
    (this : t) (valid : Validator) :
  (forall e, argument r valid = Err e ->
             handler P r this valid = ([], Err e))
  /\ (forall v, argument r valid = Ok v ->
                truthy v = false \/ spv this = true ->
                exists msg,
                  handler P r this valid = ([], Err (HttpError msg 400)))
  /\ (forall v e, argument r valid = Ok v ->
                  r = GET_coin_address \/ r = GET_tx_address ->
                  truthy v = true -> spv this = false ->
                  fromString P v (network this) = Err e ->
                  handler P r this valid = ([], Err e)).
Proof.
  split_and!.
  - intros e Harg.
    destruct r; cbn [argument] in Harg; cbn [handler]; by rewrite Harg.
  - intros v Harg Hbad.
    destruct r; cbn [argument] in Harg; cbn [handler]; rewrite Harg; mrun;
      (destruct (truthy v) eqn:Ht;
       [ destruct Hbad as [?| ->]; [done|] | ]); mrun; eauto.
  - intros v e Harg Hr Ht Hspv Hparse.
    destruct Hr as [-> | ->]; cbn [argument] in Harg; cbn [handler];
      rewrite Harg; mrun; rewrite Ht, Hspv; mrun; by rewrite Hparse.
Qed.

(** C9. After [init], an 'error' event emitted by a configured
    sub-index is emitted again on the facade, provided no listener
    registered before [init]'s throws first. *)
Theorem init_forwards_errors (this : t) (w : Wiring) (s : SubIndex)
    (err : Error)
    (Hconf : configured this s = true)
    (Hquiet : forallb quiet (sub_listeners w s) = true) :
  Emitted Facade err ∈ (emitSub (init this w) s err).1.
Proof.
  unfold emitSub. rewrite (init_sub_listeners this w s Hconf).
  pose proof (runListeners_reemit (init this w) _ err Hquiet) as Hin.
  destruct (sub_listeners w s ++ [Reemit]) as [|l ls] eqn:Hls.
  - by destruct (sub_listeners w s).
  - destruct (runListeners (init this w) (l :: ls) err).
    by apply list_elem_of_further.
Qed.

(** C10. With only one of the two persisted indexes configured,
    [getMetaByAddress] returns the mempool matches alone and calls no
    persisted index. *)
Theorem getMetaByAddress_single_index (this : t) (addrs : Value)
    (Hone : txindex this = None \/ addrindex this = None) :
  getMetaByAddress this addrs
  = ([MempoolGetMetaByAddress addrs],
     mp_getMetaByAddress (mempoolindex this) addrs).
Proof.
  unfold getMetaByAddress.
  destruct Hone as [-> | ->]; [|destruct (txindex this)];
    by destruct (mp_getMetaByAddress (mempoolindex this) addrs).
Qed.

End AggregatorClaims.

(** * Properties of the indexer core *)

Section ChainFacts.
Import Indexer.

Lemma tipHash_snoc (g : Hash) (bs : list Block) (b : Block) :
  tipHash g (bs ++ [b]) = block_hash b.
Proof. unfold tipHash. by rewrite last_snoc. Qed.

Lemma tipHash_take_S (g : Hash) (bs : list Block) (i : nat) (b : Block) :
  bs !! i = Some b -> tipHash g (take (S i) bs) = block_hash b.
Proof.
  intros Hb. by rewrite (take_S_r _ _ _ Hb), tipHash_snoc.
Qed.

Lemma linked_app (g : Hash) (xs ys : list Block) :
  linked g (xs ++ ys) = true ->
  linked g xs = true /\ linked (tipHash g xs) ys = true.
Proof.
  revert g. induction xs as [|x xs IH]; intros g; simpl.
  - done.
  - intros [Hp Hl]%andb_true_iff. destruct (IH _ Hl) as [H1 H2].
    split; [by apply andb_true_iff|].
    destruct xs as [|x' xs'] using rev_ind; [done|].
    by rewrite app_comm_cons, !tipHash_snoc in *.
Qed.

(** In a linked chain the block at height [i + 1] names the tip of the
    [i] blocks below it. *)
Lemma linked_prev (g : Hash) (bs : list Block) (i : nat) (b : Block) :
  linked g bs = true -> bs !! i = Some b ->
  block_prev b = tipHash g (take i bs).
Proof.
  intros Hl Hb.
  rewrite <- (take_drop i bs) in Hl.
  apply linked_app in Hl as [_ Hl].
  rewrite (drop_S _ _ _ Hb) in Hl. simpl in Hl.
  apply andb_true_iff in Hl as [Hp _].
  by apply bool_decide_eq_true in Hp.
Qed.

Lemma stored_lookup (m : gmap Hash Block) (bs : list Block) (i : nat)
    (b : Block) :
  stored m bs = true -> bs !! i = Some b -> m !! block_hash b = Some b.
Proof.
  unfold stored. rewrite forallb_forall. intros Hs Hb.
  eapply bool_decide_eq_true_1, Hs. apply list_elem_of_In.
  by eapply list_elem_of_lookup_2.
Qed.

(** Two linked chains of stored blocks that agree on the hash at one
    height agree on every block up to that height. *)
Lemma same_hash_same_prefix (g : Hash) (m : gmap Hash Block)
    (old new : list Block) :
  linked g old = true -> linked g new = true ->
  stored m old = true -> stored m new = true ->
  forall i b b',
    old !! i = Some b -> new !! i = Some b' ->
    block_hash b = block_hash b' ->
    take (S i) old = take (S i) new.
Proof.
  intros Hlo Hln Hso Hsn. induction i as [|i IH]; intros b b' Hb Hb' Hh.
  - assert (b = b') as <-.
    { pose proof (stored_lookup _ _ _ _ Hso Hb) as H1.
      pose proof (stored_lookup _ _ _ _ Hsn Hb') as H2.
      rewrite Hh in H1. congruence. }
    by rewrite (take_S_r _ _ _ Hb), (take_S_r _ _ _ Hb').
  - assert (b = b') as <-.
    { pose proof (stored_lookup _ _ _ _ Hso Hb) as H1.
      pose proof (stored_lookup _ _ _ _ Hsn Hb') as H2.
      rewrite Hh in H1. congruence. }
    rewrite (take_S_r _ _ _ Hb), (take_S_r _ _ _ Hb').
    f_equal.
    destruct (lookup_lt_is_Some_2 old i) as [p Hp].
    { apply lookup_lt_Some in Hb. lia. }
    destruct (lookup_lt_is_Some_2 new i) as [p' Hp'].
    { apply lookup_lt_Some in Hb'. lia. }
    apply (IH p p' Hp Hp').
    pose proof (linked_prev _ _ _ _ Hlo Hb) as H1.
    pose proof (linked_prev _ _ _ _ Hln Hb') as H2.
    rewrite (tipHash_take_S _ _ _ _ Hp) in H1.
    rewrite (tipHash_take_S _ _ _ _ Hp') in H2.
    congruence.
Qed.

Lemma chainTXs_app (xs ys : list Block) :
  chainTXs (xs ++ ys) = chainTXs xs ++ chainTXs ys.
Proof. unfold chainTXs. by rewrite fmap_app, concat_app. Qed.

Lemma validChain_app (xs ys : list Block) :
  validChain (xs ++ ys) = true -> validChain xs = true.
Proof.
  unfold validChain. rewrite !bool_decide_eq_true, chainTXs_app, fmap_app.
  by intros (H & _)%NoDup_app.
Qed.

Lemma validChain_take (bs : list Block) (n : nat) :
  validChain bs = true -> validChain (take n bs) = true.
Proof.
  intros Hv. rewrite <- (take_drop n bs) in Hv.
  by apply validChain_app in Hv.
Qed.

End ChainFacts.

Section EngineFacts.
Import Indexer.
Context {C : Type} `{Hooks C}.

Lemma indexFrom_app (h : nat) (xs ys : list Block) (ct : C) :
  indexFrom h (xs ++ ys) ct
  = indexFrom (h + length xs) ys (indexFrom h xs ct).
Proof.
  revert h ct. induction xs as [|x xs IH]; intros h ct; simpl.
  - by rewrite Nat.add_0_r.
  - rewrite IH. f_equal. lia.
Qed.

Lemma indexChain_snoc (bs : list Block) (b : Block) :
  indexChain (bs ++ [b])
  = indexBlock (entryOf (S (length bs)) b) b (indexChain bs).
Proof. unfold indexChain. by rewrite indexFrom_app. Qed.

Lemma indexChain_app (xs ys : list Block) :
  indexChain (xs ++ ys) = indexFrom (length xs) ys (indexChain xs).
Proof. unfold indexChain. by rewrite indexFrom_app. Qed.

(** Step 3 never fails below the tip and lands on the tip. *)
Lemma forward_spec (c : Chain) (g : Hash) (ext pre : list Block) (ct : C) :
  best c = pre ++ ext ->
  forward c (length ext) (mkState (length pre) (tipHash g pre)) ct
  = Ok (mkState (length (pre ++ ext)) (tipHash g (pre ++ ext)),
        indexFrom (length pre) ext ct).
Proof.
  revert pre ct. induction ext as [|b ext IH]; intros pre ct Hbest.
  - by rewrite app_nil_r.
  - cbn [length forward st_height]. unfold getBlock.
    rewrite Hbest, lookup_app_r, Nat.sub_diag by lia. cbn [lookup list_lookup].
    cbn [indexFrom].
    replace (S (length pre)) with (length (pre ++ [b]))
      by (rewrite length_app; simpl; lia).
    rewrite <- (tipHash_snoc g pre b).
    rewrite (IH (pre ++ [b])) by (by rewrite Hbest, <- app_assoc).
    by rewrite <- app_assoc.
Qed.

(** Step 2 does nothing when the index sits on the canonical chain. *)
Lemma rollback_on_chain (c : Chain) (pre ext : list Block) (ct : C) :
  best c = pre ++ ext ->
  rollback c (length pre) (tipHash (genesis c) pre) ct
  = Ok (mkState (length pre) (tipHash (genesis c) pre), ct).
Proof.
  intros Hbest. destruct pre as [|b pre] using rev_ind; [done|].
  rewrite length_app, Nat.add_1_r. cbn [rollback length].
  rewrite bool_decide_eq_true_2; [done|].
  unfold getHash. rewrite Hbest, <- app_assoc.
  rewrite lookup_app_r, Nat.sub_diag by lia.
  by rewrite tipHash_snoc.
Qed.

(** Catching up on an extension of the indexed chain indexes exactly
    the missing blocks. *)
Lemma sync_extend (c : Chain) (pre ext : list Block) (s : Status) :
  best c = pre ++ ext ->
  sync c (mkIndex s (mkState (length pre) (tipHash (genesis c) pre))
                  (indexChain pre))
  = Ok (settled (genesis c) (pre ++ ext)).
Proof.
  intros Hbest. unfold sync. cbn [state content st_height st_hash].
  rewrite (rollback_on_chain c pre ext _ Hbest). cbn [st_height].
  replace (height c - length pre)%nat with (length ext)
    by (unfold height; rewrite Hbest, length_app; lia).
  rewrite (forward_spec c (genesis c) ext pre _ Hbest).
  unfold settled. by rewrite indexChain_app.
Qed.

Hypothesis round_trip : RoundTrip.

(** Step 2 undoes the blocks that are not canonical any more and stops
    on a prefix the two chains share. *)
Lemma rollback_spec (c : Chain) (old : list Block) :
  linked (genesis c) old = true ->
  linked (genesis c) (best c) = true ->
  validChain old = true ->
  stored (blocks c) old = true ->
  stored (blocks c) (best c) = true ->
  forall h, (h <= length old)%nat ->
    exists k, (k <= h)%nat /\ (k <= length (best c))%nat /\
      take k old = take k (best c) /\
      rollback c h (tipHash (genesis c) (take h old))
               (indexChain (take h old))
      = Ok (mkState k (tipHash (genesis c) (take k old)),
            indexChain (take k old)).
Proof.
  intros Hlo Hln Hv Hso Hsn. induction h as [|h IH]; intros Hh.
  - exists O. split_and!; try lia; by rewrite ?take_0.
  - destruct (lookup_lt_is_Some_2 old h) as [b Hb]; [lia|].
    cbn [rollback].
    rewrite (tipHash_take_S _ _ _ _ Hb).
    case_bool_decide as Hon.
    + exists (S h). unfold getHash in Hon.
      destruct (best c !! h) as [b'|] eqn:Hb'; [|done].
      simpl in Hon. assert (block_hash b = block_hash b') by congruence.
      split_and!; try lia.
      * apply lookup_lt_Some in Hb'. lia.
      * by eapply same_hash_same_prefix.
      * by rewrite (tipHash_take_S _ _ _ _ Hb).
    + rewrite (stored_lookup _ _ _ _ Hso Hb).
      rewrite (take_S_r _ _ _ Hb).
      pose proof (round_trip (take h old) b) as Hrt.
      rewrite length_take_le in Hrt by lia.
      rewrite Hrt.
      2:{ rewrite <- (take_S_r _ _ _ Hb). by apply validChain_take. }
      rewrite (linked_prev _ _ _ _ Hlo Hb).
      destruct IH as (k & Hk & Hk' & Hpre & Hroll); [lia|].
      exists k. split_and!; try lia; done.
Qed.

(** Convergence: from the state settled on one valid chain, a sync
    against any other chain reaches the state that indexing the other
    chain from genesis produces. *)
Lemma sync_converges (c : Chain) (old : list Block) (s : Status) :
  linked (genesis c) old = true ->
  linked (genesis c) (best c) = true ->
  validChain old = true ->
  stored (blocks c) old = true ->
  stored (blocks c) (best c) = true ->
  sync c (mkIndex s (mkState (length old) (tipHash (genesis c) old))
                  (indexChain old))
  = Ok (settled (genesis c) (best c)).
Proof.
  intros Hlo Hln Hv Hso Hsn.
  destruct (rollback_spec c old Hlo Hln Hv Hso Hsn (length old))
    as (k & Hk & Hk' & Hpre & Hroll); [lia|].
  rewrite firstn_all in Hroll.
  unfold sync. cbn [state content st_height st_hash]. rewrite Hroll.
  cbn [st_height]. rewrite Hpre.
  pose proof (forward_spec c (genesis c) (drop k (best c))
                (take k (best c)) (indexChain (take k (best c)))) as Hf.
  rewrite take_drop, length_take_le, length_drop in Hf by lia.
  unfold height. rewrite Hf by done.
  pose proof (indexChain_app (take k (best c)) (drop k (best c))) as Ha.
  rewrite take_drop, length_take_le in Ha by lia.
  unfold settled. by rewrite Ha.
Qed.

End EngineFacts.

(** * Folds of map updates *)

Section FoldFacts.
Context {K : Type} `{Countable K} {V X : Type}.
Implicit Types (m : gmap K V) (f : X -> K) (g : X -> V) (l : list X).

Lemma foldl_insert_lookup_notin f g l m (k : K) :
  k ∉ f <$> l ->
  foldl (fun m x => <[f x := g x]> m) m l !! k = m !! k.
Proof.
  revert m. induction l as [|x l IH]; intros m Hk; simpl; [done|].
  rewrite fmap_cons in Hk. apply not_elem_of_cons in Hk as [Hne Hk].
  rewrite IH by done. by rewrite lookup_insert_ne.
Qed.

Lemma foldl_insert_lookup_in f g l m (k : K) :
  k ∈ f <$> l ->
  exists x, x ∈ l /\ f x = k /\
            foldl (fun m x => <[f x := g x]> m) m l !! k = Some (g x).
Proof.
  revert m. induction l as [|x l IH]; intros m Hk.
  - by apply elem_of_nil in Hk.
  - simpl. destruct (decide (k ∈ f <$> l)) as [Hin|Hout].
    + destruct (IH (<[f x := g x]> m) Hin) as (y & Hy & Hfy & Hl).
      exists y. split_and!; [by apply list_elem_of_further|done|done].
    + rewrite fmap_cons in Hk. apply elem_of_cons in Hk as [->|Hk]; [|done].
      exists x. split_and!; [apply list_elem_of_here|done|].
      rewrite foldl_insert_lookup_notin by done.
      apply lookup_insert_eq.
Qed.

Lemma foldl_delete_lookup f l m (k : K) :
  foldl (fun m x => delete (f x) m) m l !! k
  = if decide (k ∈ f <$> l) then None else m !! k.
Proof.
  revert m. induction l as [|x l IH]; intros m; cbn [foldl].
  - by rewrite decide_False by apply not_elem_of_nil.
  - rewrite IH, fmap_cons. destruct (decide (k ∈ f <$> l)) as [Hin|Hout].
    + by rewrite decide_True by (by apply list_elem_of_further).
    + destruct (decide (k = f x)) as [->|Hne].
      * rewrite lookup_delete_eq.
        by rewrite decide_True by apply list_elem_of_here.
      * rewrite lookup_delete_ne by done.
        rewrite decide_False; [done|].
        by intros [?|?]%elem_of_cons.
Qed.

(** Deleting the keys that were inserted restores a map in which they
    were fresh. *)
Lemma foldl_insert_delete f g l m :
  (forall x, x ∈ l -> m !! f x = None) ->
  foldl (fun m x => delete (f x) m)
        (foldl (fun m x => <[f x := g x]> m) m l) (reverse l)
  = m.
Proof.
  intros Hfresh. apply map_eq. intros k.
  rewrite foldl_delete_lookup. case_decide as Hk.
  - rewrite fmap_reverse, elem_of_reverse in Hk.
    apply list_elem_of_fmap in Hk as (x & -> & Hx). symmetry. by apply Hfresh.
  - rewrite fmap_reverse, elem_of_reverse in Hk.
    by apply foldl_insert_lookup_notin.
Qed.

End FoldFacts.

(** * The chain's guarantee *)

Section ValidityFacts.
Import Indexer.

Lemma chainTXs_snoc (bs : list Block) (b : Block) :
  chainTXs (bs ++ [b]) = chainTXs bs ++ block_txs b.
Proof.
  unfold chainTXs. rewrite fmap_app, concat_app. simpl.
  by rewrite app_nil_r.
Qed.

Lemma validChain_NoDup (bs : list Block) :
  validChain bs = true -> NoDup (tx_hash <$> chainTXs bs).
Proof. unfold validChain. by rewrite bool_decide_eq_true. Qed.

(** In a valid chain the transactions of a new block are new. *)
Lemma validChain_fresh (pre : list Block) (b : Block) (t : TX) :
  validChain (pre ++ [b]) = true ->
  t ∈ block_txs b -> tx_hash t ∉ tx_hash <$> chainTXs pre.
Proof.
  intros Hnd%validChain_NoDup Hin Hold.
  rewrite chainTXs_snoc, fmap_app in Hnd.
  apply NoDup_app in Hnd as (_ & Hdisj & _).
  apply (Hdisj _ Hold). by apply list_elem_of_fmap_2.
Qed.

End ValidityFacts.

(** * The transaction index *)

Section TXIndexerFacts.
Import Indexer.

(** What the index holds for a chain: every transaction of the chain
    has an entry, and every entry is a transaction of the chain stored
    under its own hash. *)
Lemma txindex_entries (bs : list Block) :
  (forall t, t ∈ chainTXs bs ->
             is_Some (indexChain (C := TXIndexer.Content) bs !! tx_hash t))
  /\ (forall h m, indexChain (C := TXIndexer.Content) bs !! h = Some m ->
                  tx_hash (meta_tx m) = h /\ meta_tx m ∈ chainTXs bs).
Proof.
  induction bs as [|b bs [IH1 IH2]] using rev_ind.
  - split; [by intros t ?%elem_of_nil|done].
  - rewrite indexChain_snoc, chainTXs_snoc.
    cbn [indexBlock TXIndexer_hooks]. unfold TXIndexer.indexBlock.
    set (e := entryOf (S (length bs)) b).
    split.
    + intros t Hin.
      destruct (decide (tx_hash t ∈ tx_hash <$> block_txs b)) as [Hb|Hb].
      * destruct (foldl_insert_lookup_in tx_hash (TXIndexer.metaOf e b)
                    (block_txs b) (indexChain bs) _ Hb) as (x & _ & _ & ->).
        eauto.
      * rewrite foldl_insert_lookup_notin by done.
        apply IH1. apply elem_of_app in Hin as [?|Hin]; [done|].
        exfalso. apply Hb. by apply list_elem_of_fmap_2.
    + intros h m.
      destruct (decide (h ∈ tx_hash <$> block_txs b)) as [Hb|Hb].
      * destruct (foldl_insert_lookup_in tx_hash (TXIndexer.metaOf e b)
                    (block_txs b) (indexChain bs) _ Hb) as (x & Hx & Hh & ->).
        intros [= <-]. simpl. split; [done|].
        apply elem_of_app. by right.
      * rewrite foldl_insert_lookup_notin by done. intros Hm.
        destruct (IH2 _ _ Hm). split; [done|]. apply elem_of_app. by left.
Qed.

Lemma TXIndexer_round_trip : RoundTrip (C := TXIndexer.Content).
Proof.
  intros pre b Hv. rewrite indexChain_snoc.
  cbn [indexBlock unindexBlock TXIndexer_hooks].
  unfold TXIndexer.indexBlock, TXIndexer.unindexBlock.
  apply foldl_insert_delete. intros t Hin.
  destruct (indexChain pre !! tx_hash t) as [m|] eqn:Hm; [|done].
  exfalso. apply (validChain_fresh pre b t Hv Hin).
  destruct (proj2 (txindex_entries pre) _ _ Hm) as [Hh Hin'].
  rewrite <- Hh. by apply list_elem_of_fmap_2.
Qed.

End TXIndexerFacts.

(** * The address index *)

Section AddrIndexerFacts.
Import Indexer AddrIndexer.

Lemma elem_of_concat {A} (x : A) (ls : list (list A)) :
  x ∈ concat ls <-> exists l, l ∈ ls /\ x ∈ l.
Proof.
  rewrite list_elem_of_In, in_concat. split.
  - intros (l & H1 & H2). exists l. by rewrite !list_elem_of_In.
  - intros (l & H1 & H2). exists l. by rewrite <- !list_elem_of_In.
Qed.

Lemma elem_of_outKeys (t : TX) (op : Outpoint) :
  op ∈ outKeys t <->
  exists i o, tx_outputs t !! i = Some o /\ op = (tx_hash t, i).
Proof.
  unfold outKeys. rewrite list_elem_of_fmap. split.
  - intros ([i o] & -> & Hin). apply elem_of_lookup_imap in Hin
      as (i' & o' & [= -> ->] & Hl). eauto.
  - intros (i & o & Hl & ->). exists (i, o). split; [done|].
    by apply elem_of_lookup_imap_2 with (f := pair).
Qed.

(** An outpoint that is marked keeps its first mark; an unmarked input
    of the transaction is marked by it. *)
Lemma lookup_spend (h : Hash) (ins : list Outpoint) (sp : gmap Outpoint Hash)
    (k : Outpoint) :
  foldl (fun sp op =>
           match sp !! op with
           | Some _ => sp
           | None => <[op := h]> sp
           end) sp ins !! k
  = match sp !! k with
    | Some h' => Some h'
    | None => if decide (k ∈ ins) then Some h else None
    end.
Proof.
  revert sp. induction ins as [|x ins IH]; intros sp; cbn [foldl].
  - rewrite decide_False by apply not_elem_of_nil. by destruct (sp !! k).
  - rewrite IH. destruct (sp !! x) as [hx|] eqn:Hx.
    + destruct (sp !! k) as [hk|] eqn:Hk; [done|].
      assert (k <> x) by congruence.
      destruct (decide (k ∈ ins)) as [Hin|Hout].
      * by rewrite decide_True by (by apply list_elem_of_further).
      * rewrite decide_False; [done|]. by intros [?|?]%elem_of_cons.
    + destruct (decide (k = x)) as [->|Hne].
      * rewrite lookup_insert_eq, Hx.
        by rewrite decide_True by apply list_elem_of_here.
      * rewrite lookup_insert_ne by done.
        destruct (sp !! k) as [hk|]; [done|].
        destruct (decide (k ∈ ins)) as [Hin|Hout].
        -- by rewrite decide_True by (by apply list_elem_of_further).
        -- rewrite decide_False; [done|]. by intros [?|?]%elem_of_cons.
Qed.

Lemma lookup_spendInputs (sp : gmap Outpoint Hash) (t : TX) (k : Outpoint) :
  spendInputs sp t !! k
  = match sp !! k with
    | Some h' => Some h'
    | None => if decide (k ∈ tx_inputs t) then Some (tx_hash t) else None
    end.
Proof. apply lookup_spend. Qed.

(** Undoing removes the marks of the transaction on its inputs, and no
    other. *)
Lemma lookup_restore (h : Hash) (ins : list Outpoint)
    (sp : gmap Outpoint Hash) (k : Outpoint) :
  foldl (fun sp op =>
           match sp !! op with
           | Some h' => if decide (h' = h) then delete op sp else sp
           | None => sp
           end) sp ins !! k
  = match sp !! k with
    | Some h' => if decide (h' = h /\ k ∈ ins) then None else Some h'
    | None => None
    end.
Proof.
  revert sp. induction ins as [|x ins IH]; intros sp; cbn [foldl].
  - destruct (sp !! k) as [hk|]; [|done].
    rewrite decide_False; [done|]. intros [_ ?%elem_of_nil]. done.
  - rewrite IH. destruct (sp !! x) as [hx|] eqn:Hx.
    + destruct (decide (hx = h)) as [->|Hhx].
      * destruct (decide (k = x)) as [->|Hne].
        -- rewrite lookup_delete_eq, Hx.
           rewrite decide_True; [done|]. split; [done|apply list_elem_of_here].
        -- rewrite lookup_delete_ne by done.
           destruct (sp !! k) as [hk|]; [|done].
           destruct (decide (hk = h /\ k ∈ ins)) as [[? ?]|Hno].
           ++ rewrite decide_True; [done|].
              split; [done|by apply list_elem_of_further].
           ++ rewrite decide_False; [done|].
              intros [? [?|?]%elem_of_cons]; [done|]. by apply Hno.
      * destruct (sp !! k) as [hk|] eqn:Hk; [|done].
        destruct (decide (hk = h /\ k ∈ ins)) as [[? ?]|Hno].
        -- rewrite decide_True; [done|].
           split; [done|by apply list_elem_of_further].
        -- rewrite decide_False; [done|].
           intros [-> [->|?]%elem_of_cons]; [congruence|]. by apply Hno.
    + destruct (sp !! k) as [hk|] eqn:Hk; [|done].
      destruct (decide (hk = h /\ k ∈ ins)) as [[? ?]|Hno].
      * rewrite decide_True; [done|].
        split; [done|by apply list_elem_of_further].
      * rewrite decide_False; [done|].
        intros [-> [->|?]%elem_of_cons]; [congruence|]. by apply Hno.
Qed.

Lemma restoreInputs_spendInputs (t : TX) (sp : gmap Outpoint Hash) :
  (forall op h, sp !! op = Some h -> h <> tx_hash t) ->
  restoreInputs (spendInputs sp t) t = sp.
Proof.
  intros Hfresh. apply map_eq. intros k.
  unfold restoreInputs. rewrite lookup_restore, lookup_spendInputs.
  destruct (sp !! k) as [hk|] eqn:Hk.
  - rewrite decide_False; [done|]. intros [? _]. by apply (Hfresh _ _ Hk).
  - destruct (decide (k ∈ tx_inputs t)) as [Hin|Hout]; [|done].
    rewrite decide_True; [done|]. split; [done|]. by apply elem_of_reverse.
Qed.

Lemma lookup_addOutputs_other (e : ChainEntry) (t : TX)
    (m : gmap Outpoint Coin) (k : Outpoint) :
  k ∉ outKeys t -> addOutputs e t m !! k = m !! k.
Proof.
  intros Hk. unfold addOutputs.
  by apply (foldl_insert_lookup_notin
              (fun io : nat * Output => (tx_hash t, io.1))).
Qed.

Lemma lookup_addOutputs_own (e : ChainEntry) (t : TX)
    (m : gmap Outpoint Coin) (i : nat) (o : Output) :
  tx_outputs t !! i = Some o ->
  addOutputs e t m !! (tx_hash t, i) = Some (coinOf e t i o).
Proof.
  intros Ho. unfold addOutputs.
  destruct (foldl_insert_lookup_in
              (fun io : nat * Output => (tx_hash t, io.1))
              (fun io : nat * Output => coinOf e t io.1 io.2)
              (imap pair (tx_outputs t)) m (tx_hash t, i))
    as ([i' o'] & Hin & Hkey & Hl).
  { apply elem_of_outKeys. eauto. }
  etrans; [exact Hl|].
  simpl in Hkey. injection Hkey as ->.
  apply elem_of_lookup_imap in Hin as (i'' & o'' & [= -> ->] & Hl').
  simpl. by replace o'' with o by congruence.
Qed.

Lemma removeOutputs_addOutputs (e : ChainEntry) (t : TX)
    (m : gmap Outpoint Coin) :
  (forall k, k ∈ outKeys t -> m !! k = None) ->
  removeOutputs t (addOutputs e t m) = m.
Proof.
  intros Hfresh. unfold removeOutputs, addOutputs.
  apply (foldl_insert_delete (fun io : nat * Output => (tx_hash t, io.1))).
  intros io Hio. apply Hfresh. unfold outKeys.
  by apply (list_elem_of_fmap_2
              (fun io : nat * Output => (tx_hash t, io.1))).
Qed.

Lemma elem_of_associations (m : gmap Outpoint Coin) (t : TX)
    (a : Address) (h : Hash) :
  (a, h) ∈ associations m t -> h = tx_hash t.
Proof.
  unfold associations. rewrite elem_of_list_to_set, list_elem_of_fmap.
  by intros (a' & [= -> ->] & _).
Qed.

(** ** What the index holds *)

Lemma tracked_empty : tracked [] AddrIndexer.empty.
Proof.
  split_and!.
  - intros a h Hin. by apply not_elem_of_empty in Hin.
  - intros op c Hc. cbn [coins AddrIndexer.empty] in Hc.
    by rewrite lookup_empty in Hc.
  - intros op h Hh. cbn [spent AddrIndexer.empty] in Hh.
    by rewrite lookup_empty in Hh.
Qed.

Lemma indexTX_tracked (e : ChainEntry) (hs : list Hash) (s : Content)
    (t : TX) :
  tracked hs s -> tracked (hs ++ [tx_hash t]) (indexTX e s t).
Proof.
  intros (He & Hc & Hs). unfold indexTX. split_and!; cbn [entries coins spent].
  - intros a h [Hin|Hin]%elem_of_union; apply elem_of_app.
    + left. by apply (He a).
    + right. apply elem_of_associations in Hin as ->.
      apply list_elem_of_here.
  - intros op c Hl. destruct (decide (op ∈ outKeys t)) as [Hin|Hout].
    + apply elem_of_outKeys in Hin as (i & o & Ho & ->).
      rewrite (lookup_addOutputs_own _ _ _ _ _ Ho) in Hl. injection Hl as <-.
      split_and!; [done|done|]. apply elem_of_app. right.
      apply list_elem_of_here.
    + rewrite lookup_addOutputs_other in Hl by done.
      destruct (Hc _ _ Hl) as (H1 & H2 & H3).
      split_and!; [done|done|]. apply elem_of_app. by left.
  - intros op h. rewrite lookup_spendInputs.
    destruct (spent s !! op) as [h'|] eqn:Hop.
    + intros [= <-]. apply elem_of_app. left. by apply (Hs op).
    + case_decide; [|done]. intros [= <-]. apply elem_of_app. right.
      apply list_elem_of_here.
Qed.

Lemma indexTXs_tracked (e : ChainEntry) (ts : list TX) (hs : list Hash)
    (s : Content) :
  tracked hs s -> tracked (hs ++ (tx_hash <$> ts)) (foldl (indexTX e) s ts).
Proof.
  revert hs s. induction ts as [|t ts IH]; intros hs s Hk; cbn [foldl].
  - by rewrite fmap_nil, app_nil_r.
  - rewrite fmap_cons, cons_middle, app_assoc. by apply IH, indexTX_tracked.
Qed.

Lemma indexChain_tracked (bs : list Block) :
  tracked (tx_hash <$> chainTXs bs) (indexChain bs).
Proof.
  induction bs as [|b bs IH] using rev_ind.
  - apply tracked_empty.
  - rewrite indexChain_snoc, chainTXs_snoc, fmap_app.
    by apply indexTXs_tracked.
Qed.

(** ** The round trip *)

Lemma indexTX_round_trip (e : ChainEntry) (hs : list Hash) (s : Content)
    (t : TX) :
  tracked hs s -> tx_hash t ∉ hs -> unindexTX (indexTX e s t) t = s.
Proof.
  intros (He & Hc & Hs) Hfresh.
  assert (Hrest : removeOutputs t (addOutputs e t (coins s)) = coins s).
  { apply removeOutputs_addOutputs.
    intros k (i & o & _ & ->)%elem_of_outKeys.
    destruct (coins s !! (tx_hash t, i)) as [c|] eqn:Hl; [|done].
    exfalso. apply Hfresh. by destruct (Hc _ _ Hl) as (_ & _ & ?). }
  destruct s as [en co sp]. unfold unindexTX, indexTX.
  cbn [coins entries spent] in *. rewrite Hrest. f_equal.
  - apply set_eq. intros [a h].
    rewrite elem_of_difference, elem_of_union. split; [tauto|].
    intros Hin. split; [by left|].
    intros ->%elem_of_associations. apply Hfresh. by apply (He a).
  - apply restoreInputs_spendInputs. intros op h Hop ->.
    apply Hfresh. by apply (Hs op).
Qed.

Lemma indexTXs_round_trip (e : ChainEntry) (ts : list TX) (hs : list Hash)
    (s : Content) :
  tracked hs s -> NoDup (hs ++ (tx_hash <$> ts)) ->
  foldl unindexTX (foldl (indexTX e) s ts) (reverse ts) = s.
Proof.
  revert hs s. induction ts as [|t ts IH]; intros hs s Htr Hnd; [done|].
  cbn [foldl]. rewrite reverse_cons, foldl_app.
  rewrite fmap_cons, cons_middle, app_assoc in Hnd.
  rewrite (IH (hs ++ [tx_hash t])); [|by apply indexTX_tracked|done].
  cbn [foldl]. apply (indexTX_round_trip e hs); [done|].
  apply NoDup_app in Hnd as (Hnd & _ & _).
  apply NoDup_app in Hnd as (_ & Hdisj & _).
  intros Hin. apply (Hdisj _ Hin), list_elem_of_here.
Qed.

Lemma AddrIndexer_round_trip : RoundTrip (C := AddrIndexer.Content).
Proof.
  intros pre b Hv%validChain_NoDup. rewrite indexChain_snoc.
  rewrite chainTXs_snoc, fmap_app in Hv.
  cbn [Indexer.indexBlock Indexer.unindexBlock AddrIndexer_hooks].
  unfold AddrIndexer.indexBlock, AddrIndexer.unindexBlock.
  apply (indexTXs_round_trip _ _ (tx_hash <$> chainTXs pre)); [|done].
  apply indexChain_tracked.
Qed.

End AddrIndexerFacts.

Section AddrIndexerReads.
Import Indexer AddrIndexer.

(** A coin that [getCoinsByAddress] returns is a coin of the index whose
    outpoint is not marked spent. *)
Lemma elem_of_getCoinsByAddress (s : Content) (addrs : list Address)
    (c : Coin) :
  c ∈ getCoinsByAddress s addrs ->
  exists op, coins s !! op = Some c /\ spent s !! op = None
             /\ coin_address c ∈ addrs.
Proof.
  unfold getCoinsByAddress. rewrite elem_of_concat.
  intros (l & (a & -> & Ha)%list_elem_of_fmap & Hc).
  unfold coinsOf in Hc. apply list_elem_of_omap in Hc as ([op c'] & Hin & Hf).
  apply elem_of_map_to_list in Hin. cbn [fst snd] in Hf.
  case_bool_decide as Hsp; [|done]. cbn [andb] in Hf.
  case_bool_decide as Haddr; [|done]. injection Hf as <-.
  exists op. by rewrite Haddr.
Qed.

(** A hash that [getHashesByAddress] returns is that of a transaction the
    index has associated with an address. *)
Lemma elem_of_getHashesByAddress (s : Content) (addrs : list Address)
    (h : Hash) :
  h ∈ getHashesByAddress s addrs -> exists a, (a, h) ∈ entries s.
Proof.
  unfold getHashesByAddress. rewrite elem_of_concat.
  intros (l & (a & -> & Ha)%list_elem_of_fmap & Hh).
  unfold hashesOf in Hh. apply list_elem_of_omap in Hh as ([a' h'] & Hin & Hf).
  apply elem_of_elements in Hin. cbn [fst snd] in Hf.
  case_bool_decide; [|done]. injection Hf as <-. eauto.
Qed.

(** ** A spend inside the block *)

(** A mark is never lifted while indexing. *)
Lemma indexTX_keeps_mark (e : ChainEntry) (s : Content) (t : TX)
    (k : Outpoint) :
  is_Some (spent s !! k) -> is_Some (spent (indexTX e s t) !! k).
Proof.
  intros [h Hh]. unfold indexTX. cbn [spent].
  rewrite lookup_spendInputs, Hh. eauto.
Qed.

Lemma indexTX_marks (e : ChainEntry) (s : Content) (t : TX) (k : Outpoint) :
  k ∈ tx_inputs t -> is_Some (spent (indexTX e s t) !! k).
Proof.
  intros Hk. unfold indexTX. cbn [spent]. rewrite lookup_spendInputs.
  destruct (spent s !! k); [eauto|]. rewrite decide_True by done. eauto.
Qed.

Lemma indexTXs_keep_mark (e : ChainEntry) (ts : list TX) (s : Content)
    (k : Outpoint) :
  is_Some (spent s !! k) -> is_Some (spent (foldl (indexTX e) s ts) !! k).
Proof.
  revert s. induction ts as [|t ts IH]; intros s Hs; cbn [foldl]; [done|].
  by apply IH, indexTX_keeps_mark.
Qed.

(** Every input of every transaction of the block is marked, wherever
    the transaction stands in the block. *)
Lemma indexTXs_mark (e : ChainEntry) (ts : list TX) (s : Content) (t : TX)
    (k : Outpoint) :
  t ∈ ts -> k ∈ tx_inputs t ->
  is_Some (spent (foldl (indexTX e) s ts) !! k).
Proof.
  revert s. induction ts as [|x ts IH]; intros s Ht Hk; cbn [foldl].
  - by apply elem_of_nil in Ht.
  - apply elem_of_cons in Ht as [->|Ht].
    + by apply indexTXs_keep_mark, indexTX_marks.
    + by apply IH.
Qed.

(** Every input of every transaction of the chain is marked. *)
Lemma indexChain_marks (bs : list Block) (t : TX) (k : Outpoint) :
  t ∈ chainTXs bs -> k ∈ tx_inputs t ->
  is_Some (spent (indexChain bs) !! k).
Proof.
  induction bs as [|b bs IH] using rev_ind; intros Ht Hk.
  - by apply elem_of_nil in Ht.
  - rewrite chainTXs_snoc in Ht. rewrite indexChain_snoc.
    cbn [Indexer.indexBlock AddrIndexer_hooks].
    unfold AddrIndexer.indexBlock.
    apply elem_of_app in Ht as [Ht|Ht].
    + by apply indexTXs_keep_mark, IH.
    + by eapply indexTXs_mark.
Qed.

(** A coin is never dropped while indexing. *)
Lemma indexTX_keeps_coin (e : ChainEntry) (s : Content) (t : TX)
    (k : Outpoint) :
  is_Some (coins s !! k) -> is_Some (coins (indexTX e s t) !! k).
Proof.
  intros Hs. unfold indexTX. cbn [coins].
  destruct (decide (k ∈ outKeys t)) as [Hin|Hout].
  - apply elem_of_outKeys in Hin as (i & o & Ho & ->).
    rewrite (lookup_addOutputs_own _ _ _ _ _ Ho). eauto.
  - by rewrite lookup_addOutputs_other.
Qed.

Lemma indexTXs_keep_coin (e : ChainEntry) (ts : list TX) (s : Content)
    (k : Outpoint) :
  is_Some (coins s !! k) -> is_Some (coins (foldl (indexTX e) s ts) !! k).
Proof.
  revert s. induction ts as [|t ts IH]; intros s Hs; cbn [foldl]; [done|].
  by apply IH, indexTX_keeps_coin.
Qed.

(** Every output of every transaction of the block is tracked. *)
Lemma indexTXs_coin (e : ChainEntry) (ts : list TX) (s : Content) (t : TX)
    (i : nat) :
  t ∈ ts -> (i < length (tx_outputs t))%nat ->
  is_Some (coins (foldl (indexTX e) s ts) !! (tx_hash t, i)).
Proof.
  revert s. induction ts as [|x ts IH]; intros s Ht Hi; cbn [foldl].
  - by apply elem_of_nil in Ht.
  - apply elem_of_cons in Ht as [->|Ht].
    + apply indexTXs_keep_coin. unfold indexTX. cbn [coins].
      destruct (lookup_lt_is_Some_2 (tx_outputs x) i) as [o Ho]; [done|].
      rewrite (lookup_addOutputs_own _ _ _ _ _ Ho). eauto.
    + by apply IH.
Qed.

(** ** The coin view of the chain *)

(** A mark comes from an input of a transaction that was indexed. *)
Lemma indexTXs_marked_inv (e : ChainEntry) (ts : list TX) (s : Content)
    (k : Outpoint) (h : Hash) :
  spent (foldl (indexTX e) s ts) !! k = Some h ->
  is_Some (spent s !! k) \/ exists t, t ∈ ts /\ k ∈ tx_inputs t.
Proof.
  revert s. induction ts as [|x ts IH]; intros s Hk; cbn [foldl] in Hk.
  - left. eauto.
  - apply IH in Hk as [[h' Hk]|(t & Ht & Hin)].
    + unfold indexTX in Hk. cbn [spent] in Hk.
      rewrite lookup_spendInputs in Hk.
      destruct (spent s !! k) as [h''|]; [left; eauto|].
      destruct (decide (k ∈ tx_inputs x)) as [Hin|]; [|done].
      right. exists x. split; [apply list_elem_of_here|done].
    + right. exists t. split; [by apply list_elem_of_further|done].
Qed.

Lemma indexChain_marked_inv (bs : list Block) (k : Outpoint) (h : Hash) :
  spent (indexChain bs) !! k = Some h ->
  exists t, t ∈ chainTXs bs /\ k ∈ tx_inputs t.
Proof.
  revert h. induction bs as [|b bs IH] using rev_ind; intros h Hk.
  - change (spent (indexChain [])) with (∅ : gmap Outpoint Hash) in Hk.
    by rewrite lookup_empty in Hk.
  - rewrite indexChain_snoc in Hk.
    cbn [Indexer.indexBlock AddrIndexer_hooks] in Hk.
    unfold AddrIndexer.indexBlock in Hk.
    apply indexTXs_marked_inv in Hk as [[h' Hk]|(t & Ht & Hin)].
    + destruct (IH _ Hk) as (t & Ht & Hin). exists t.
      rewrite chainTXs_snoc. split; [|done]. apply elem_of_app. by left.
    + exists t. rewrite chainTXs_snoc. split; [|done].
      apply elem_of_app. by right.
Qed.

(** A coin stays as it is while transactions of other hashes are
    indexed. *)
Lemma indexTXs_keep_coin_eq (e : ChainEntry) (ts : list TX) (s : Content)
    (k : Outpoint) (c : Coin) :
  k.1 ∉ (tx_hash <$> ts) -> coins s !! k = Some c ->
  coins (foldl (indexTX e) s ts) !! k = Some c.
Proof.
  revert s. induction ts as [|x ts IH]; intros s Hk Hc; cbn [foldl]; [done|].
  rewrite fmap_cons in Hk. apply not_elem_of_cons in Hk as [Hx Hk].
  apply IH; [done|]. unfold indexTX. cbn [coins].
  rewrite lookup_addOutputs_other; [done|].
  by intros (i & o & _ & ->)%elem_of_outKeys.
Qed.

Lemma indexTXs_coin_of (e : ChainEntry) (ts : list TX) (s : Content)
    (t : TX) (i : nat) (o : Output) :
  NoDup (tx_hash <$> ts) -> t ∈ ts -> tx_outputs t !! i = Some o ->
  coins (foldl (indexTX e) s ts) !! (tx_hash t, i) = Some (coinOf e t i o).
Proof.
  revert s. induction ts as [|x ts IH]; intros s Hnd Ht Ho; cbn [foldl].
  - by apply elem_of_nil in Ht.
  - rewrite fmap_cons in Hnd. apply NoDup_cons in Hnd as [Hx Hnd].
    apply elem_of_cons in Ht as [->|Ht].
    + apply indexTXs_keep_coin_eq; [done|]. unfold indexTX. cbn [coins].
      by apply lookup_addOutputs_own.
    + by apply IH.
Qed.

(** On a chain where a hash names one transaction, every output of every
    transaction is tracked as the coin of that transaction. *)
Lemma indexChain_coin_of (bs : list Block) (t : TX) (i : nat) (o : Output) :
  NoDup (tx_hash <$> chainTXs bs) ->
  t ∈ chainTXs bs -> tx_outputs t !! i = Some o ->
  exists e, coins (indexChain bs) !! (tx_hash t, i) = Some (coinOf e t i o).
Proof.
  induction bs as [|b bs IH] using rev_ind; intros Hnd Ht Ho.
  - by apply elem_of_nil in Ht.
  - rewrite chainTXs_snoc in Hnd, Ht. rewrite fmap_app in Hnd.
    apply NoDup_app in Hnd as (Hnd1 & Hdisj & Hnd2).
    rewrite indexChain_snoc. cbn [Indexer.indexBlock AddrIndexer_hooks].
    unfold AddrIndexer.indexBlock.
    apply elem_of_app in Ht as [Ht|Ht].
    + destruct (IH Hnd1 Ht Ho) as [e He]. exists e.
      apply indexTXs_keep_coin_eq; [|done]. cbn [fst].
      apply Hdisj. by apply (list_elem_of_fmap_2 tx_hash).
    + eexists. by apply indexTXs_coin_of.
Qed.

(** The coins a query returns are unspent on the chain. *)
Lemma getCoinsByAddress_unspent (bs : list Block) (addrs : list Address)
    (coin : Coin) (t : TX) :
  coin ∈ getCoinsByAddress (indexChain bs) addrs ->
  t ∈ chainTXs bs ->
  (coin_hash coin, coin_index coin) ∉ tx_inputs t.
Proof.
  intros Hin Ht Hspent.
  apply elem_of_getCoinsByAddress in Hin as (op & Hc & Hun & _).
  destruct (indexChain_tracked bs) as (_ & Hk & _).
  destruct (Hk _ _ Hc) as (Hh & Hi & _).
  assert (op = (coin_hash coin, coin_index coin)) as ->.
  { destruct op. simpl in *. congruence. }
  destruct (indexChain_marks _ _ _ Ht Hspent) as [h Hh']. congruence.
Qed.

(** On a chain where a hash names one transaction, an output that no
    transaction of the chain spends is returned for its address. *)
Lemma getCoinsByAddress_complete (bs : list Block) (t : TX) (i : nat)
    (o : Output) :
  NoDup (tx_hash <$> chainTXs bs) ->
  t ∈ chainTXs bs -> tx_outputs t !! i = Some o ->
  (forall t', t' ∈ chainTXs bs -> (tx_hash t, i) ∉ tx_inputs t') ->
  exists coin,
    coin ∈ getCoinsByAddress (indexChain bs) [out_address o]
    /\ coin_hash coin = tx_hash t /\ coin_index coin = i
    /\ coin_value coin = out_value o.
Proof.
  intros Hnd Ht Ho Hfree.
  destruct (indexChain_coin_of bs t i o Hnd Ht Ho) as [e He].
  exists (coinOf e t i o). split; [|done].
  unfold getCoinsByAddress. cbn [fmap list_fmap concat]. rewrite app_nil_r.
  unfold coinsOf. apply list_elem_of_omap. exists ((tx_hash t, i), coinOf e t i o).
  split; [by apply elem_of_map_to_list|]. cbn [fst snd].
  destruct (spent (indexChain bs) !! (tx_hash t, i)) as [h|] eqn:Hs.
  - apply indexChain_marked_inv in Hs as (t' & Ht' & Hin).
    by destruct (Hfree t' Ht').
  - by rewrite !bool_decide_eq_true_2.
Qed.

(** ** Chains of coinbase-only blocks *)

(** On a chain of coinbase-only blocks nothing is marked spent and the
    index holds, for an address, one coin per block that pays it. *)
Lemma coinbase_chain_coins (bs : list Block) (a : Address) :
  forallb coinbaseOnly bs = true ->
  NoDup (tx_hash <$> chainTXs bs) ->
  spent (indexChain bs) = ∅
  /\ length (coinsOf (indexChain bs) a)
     = length (filter (fun b => pays a b = true) bs).
Proof.
  induction bs as [|b bs IH] using rev_ind; intros Hcb Hnd.
  - split; [done|]. unfold coinsOf.
    change (coins (indexChain [])) with (∅ : gmap Outpoint Coin).
    by rewrite map_to_list_empty.
  - rewrite forallb_app in Hcb. apply andb_true_iff in Hcb as [Hcb Hb].
    rewrite chainTXs_snoc, fmap_app in Hnd.
    apply NoDup_app in Hnd as (Hnd & Hfresh & _).
    destruct (IH Hcb Hnd) as [Hsp IHl].
    simpl in Hb. rewrite andb_true_r in Hb. unfold coinbaseOnly in Hb.
    destruct (block_txs b) as [|t [|??]] eqn:Htxs; try done.
    destruct (tx_inputs t) as [|??] eqn:Hins; try done.
    destruct (tx_outputs t) as [|o [|??]] eqn:Houts; try done.
    assert (Hnone : coins (indexChain bs) !! (tx_hash t, O) = None).
    { destruct (coins (indexChain bs) !! (tx_hash t, O)) as [c|] eqn:Hc;
        [|done].
      destruct (indexChain_tracked bs) as (_ & Hk & _).
      destruct (Hk _ _ Hc) as (_ & _ & Hin).
      exfalso. apply (Hfresh _ Hin). simpl. apply list_elem_of_here. }
    rewrite indexChain_snoc, filter_app, length_app, <- IHl.
    cbn [Indexer.indexBlock AddrIndexer_hooks].
    unfold AddrIndexer.indexBlock.
    rewrite Htxs. cbn [foldl]. unfold coinsOf, indexTX. cbn [coins spent].
    unfold addOutputs, spendInputs. rewrite Hins, Houts.
    cbn [foldl imap fst snd]. split; [done|]. rewrite Hsp.
    rewrite (map_to_list_insert _ _ _ Hnone). cbn [omap list_omap fst snd].
    rewrite !lookup_empty.
    rewrite (bool_decide_eq_true_2 (None = None)) by done.
    cbn [andb coinOf coin_address].
    rewrite filter_cons, filter_nil.
    unfold pays. rewrite Htxs. cbn [fmap list_fmap concat app].
    rewrite Houts. cbn [fmap list_fmap concat app].
    destruct (decide (out_address o = a)) as [<-|Hne].
    + rewrite !bool_decide_eq_true_2 by (done || apply list_elem_of_here).
      rewrite decide_True by done. simpl. lia.
    + rewrite !bool_decide_eq_false_2;
        [|by intros ?%list_elem_of_singleton|done].
      rewrite decide_False by done. simpl. lia.
Qed.

End AddrIndexerReads.

(** * The two indexes behind the aggregator *)

Section PersistedFacts.
Import Indexer FullNodeIndexer Persisted.

Lemma addressesOf_addresses (addrs : list Address) :
  addressesOf (VArr (VAddr <$> addrs)) = addrs.
Proof.
  unfold addressesOf. induction addrs as [|a addrs IH]; [done|].
  rewrite fmap_cons. cbn [omap list_omap]. by rewrite IH.
Qed.

(** The two indexes are in step: every hash the address index reports has
    its entry in the transaction index. *)
Lemma indexes_in_step (bs : list Block) (addrs : list Address) :
  exists metas,
    Forall2 (fun h m =>
               txi_getMeta (txindexer (indexChain bs)) (VBuf h) = Ok (Some m))
            (AddrIndexer.getHashesByAddress (indexChain bs) addrs) metas.
Proof.
  assert (Hall : forall h,
             h ∈ AddrIndexer.getHashesByAddress (indexChain bs) addrs ->
             is_Some (indexChain (C := TXIndexer.Content) bs !! h)).
  { intros h [a Ha]%elem_of_getHashesByAddress.
    destruct (indexChain_tracked bs) as (He & _ & _).
    apply He, list_elem_of_fmap in Ha as (t & -> & Ht).
    by apply txindex_entries. }
  induction (AddrIndexer.getHashesByAddress (indexChain bs) addrs)
    as [|h hs IH].
  - exists []. constructor.
  - destruct IH as [metas HF].
    { intros h' Hh'. apply Hall. by apply list_elem_of_further. }
    destruct (Hall h) as [m Hm]; [apply list_elem_of_here|].
    exists (m :: metas). constructor; [|done].
    cbn [txi_getMeta txindexer]. unfold TXIndexer.getMeta. by rewrite Hm.
Qed.

End PersistedFacts.

Section EngineRuns.
Import Indexer.
Context {C : Type} `{Hooks C}.

Lemma best_foldl_addBlock (c : Chain) (bs : list Block) :
  best (foldl addBlock c bs) = best c ++ bs
  /\ genesis (foldl addBlock c bs) = genesis c.
Proof.
  revert c. induction bs as [|b bs IH]; intros c; simpl.
  - by rewrite app_nil_r.
  - destruct (IH (addBlock c b)) as [-> ->]. simpl.
    by rewrite <- app_assoc.
Qed.

(** First-time indexing: the fork point is the genesis floor. *)
Lemma open_fresh (c : Chain) :
  open c (fresh c) = Ok (settled (genesis c) (best c)).
Proof.
  unfold open, fresh. cbn [state content].
  apply (sync_extend c [] (best c) SYNCING eq_refl).
Qed.

(** An attached index follows the chain block by block. *)
Lemma advance_attached (bs : list Block) (c : Chain) :
  advance c bs (settled (genesis c) (best c))
  = Ok (foldl addBlock c bs, settled (genesis c) (best c ++ bs)).
Proof.
  revert c. induction bs as [|b bs IH]; intros c; cbn [advance foldl].
  - by rewrite app_nil_r.
  - pose proof (sync_extend (addBlock c b) (best c) [b] SYNCED eq_refl) as Hs.
    pose proof (IH (addBlock c b)) as IH'.
    cbn [genesis best addBlock] in Hs, IH'.
    unfold notify, settled in *. cbn [status]. rewrite Hs, IH'.
    by rewrite <- app_assoc.
Qed.

(** A detached index sees nothing of it. *)
Lemma advance_detached (bs : list Block) (c : Chain) (ix : Index C) :
  advance c bs (disconnect ix) = Ok (foldl addBlock c bs, disconnect ix).
Proof.
  revert c. induction bs as [|b bs IH]; intros c; cbn [advance foldl].
  - done.
  - unfold notify. cbn [status disconnect]. apply IH.
Qed.

End EngineRuns.

(** * The claims on the indexer core *)

Section CoreClaims.
Import Indexer.


(** C2. Detaching an index, letting the chain advance by any number of
    blocks, and reattaching it leaves the index in the state it reaches
    when it stays attached: settled on the chain's tip, its height the
    chain's height. *)
Theorem detach_reattach {C : Type} `{Hooks C} (c : Chain)
    (bs : list Block) :
  exists (c' : Chain) (continuous reattached : Index C),
    advance c bs (settled (genesis c) (best c)) = Ok (c', continuous)
    /\ match advance c bs (disconnect (settled (genesis c) (best c))) with
       | Ok (c'', detached) => connect c'' detached
       | Err e => Err e
       end = Ok reattached
    /\ reattached = continuous
    /\ status reattached = SYNCED
    /\ st_height (state reattached) = height c'
    /\ st_hash (state reattached) = tipHash (genesis c') (best c')
    /\ content reattached = indexChain (best c').
Proof.
  exists (foldl addBlock c bs), (settled (genesis c) (best c ++ bs)),
         (settled (genesis c) (best c ++ bs)).
  destruct (best_foldl_addBlock c bs) as [Hbest Hgen].
  split_and!; try done.
  - apply advance_attached.
  - rewrite advance_detached. unfold connect. cbn [state content disconnect settled].
    pose proof (sync_extend (foldl addBlock c bs) (best c) bs SYNCING Hbest)
      as Hs.
    by rewrite Hgen in Hs.
  - unfold height. by rewrite Hbest.
  - by rewrite Hbest, Hgen.
  - by rewrite Hbest.
Qed.


End CoreClaims.

(** * The claims at the scenario of the tests *)

Section Witnesses.
Import FullNodeIndexer Indexer Scenario.

Lemma getMeta_mempool_then_txindex_witness :
  getMeta full (VBuf 1001)
  = ([MempoolGetMeta (VBuf 1001); TxGetMeta (VBuf 1001)], Ok (Some meta1)).
Proof.
  apply (proj1 (proj2 (getMeta_mempool_then_txindex full (VBuf 1001)))
           txidx); reflexivity.
Defined.

Lemma getMetaView_dispatch_witness :
  getMetaView full unconfirmed = ([MempoolGetSpentView tx1], Ok ∅).
Proof.
  apply (proj1 (getMetaView_dispatch full unconfirmed)). reflexivity.
Defined.

Lemma getMetaByAddress_both_witness :
  txindex full = Some txidx /\ addrindex full = Some addridx
  /\ ai_getHashesByAddress addridx (VArr [VAddr miner]) = Ok [1001]
  /\ outcome (getMetaByAddress full (VAddr miner))
     = Ok ([meta1] ++ [unconfirmed]).
Proof.
  split_and!; [reflexivity|reflexivity|reflexivity|].
  refine (proj1 (proj1 (getMetaByAddress_both full txidx addridx
                          (VAddr miner) [1001] eq_refl eq_refl eq_refl)
                   [unconfirmed] [meta1] eq_refl _)).
  repeat constructor.
Defined.

Lemma getCoinsByAddress_delegates_witness :
  getCoinsByAddress bare (VAddr miner) = ([], Ok []).
Proof.
  apply (proj2 (getCoinsByAddress_delegates bare (VAddr miner))).
  reflexivity.
Defined.

(** C8, as stated, fails: the bulk handler hands a list that holds an
    unparsable address to the aggregator and answers 200. *)
Lemma bulk_handler_forwards_unparsed :
  fromString primitives (VStr "zzz") (network full)
  = Err (Thrown "invalid address")
  /\ argument POST_coin_address (request (VArr [VStr "zzz"]))
     = Ok (VArr [VStr "zzz"])
  /\ handler primitives POST_coin_address full (request (VArr [VStr "zzz"]))
     = ([AddrGetCoinsByAddress (VArr [VStr "zzz"])],
        Ok (json 200 (Many [])))
  /\ ~ (exists msg,
          handler primitives POST_coin_address full
                  (request (VArr [VStr "zzz"]))
          = ([], Err (HttpError msg 400))).
Proof.
  split_and!; try reflexivity. intros [msg Hmsg]. discriminate Hmsg.
Qed.

Lemma handler_rejects_before_core_witness :
  argument GET_tx (request VNull) = Ok VNull
  /\ (truthy VNull = false \/ spv full = true)
  /\ exists msg,
       handler primitives GET_tx full (request VNull)
       = ([], Err (HttpError msg 400)).
Proof.
  split_and!; [reflexivity|by left|].
  apply (proj1 (proj2 (handler_rejects_before_core primitives GET_tx full
                         (request VNull))) VNull eq_refl).
  by left.
Defined.

Lemma init_forwards_errors_witness :
  configured txOnly TheTxIndex = true
  /\ forallb quiet (sub_listeners unwired TheTxIndex) = true
  /\ Emitted Facade AssertionError
     ∈ (emitSub (init txOnly unwired) TheTxIndex AssertionError).1.
Proof.
  split_and!; [reflexivity|reflexivity|].
  apply (init_forwards_errors txOnly unwired TheTxIndex AssertionError);
    reflexivity.
Defined.

Lemma getMetaByAddress_single_index_witness :
  (txindex txOnly = None \/ addrindex txOnly = None)
  /\ getMetaByAddress txOnly (VAddr miner)
     = ([MempoolGetMetaByAddress (VAddr miner)], Ok [unconfirmed]).
Proof.
  split; [by right|].
  apply (getMetaByAddress_single_index txOnly (VAddr miner)). by right.
Defined.




(** The second test: ten blocks indexed, ten missed while detached,
    twenty coins after reattaching. *)
Example rescan_10_missed_blocks :
  match advance (mkChain 0 first10 ∅) missed10
                (disconnect (settled (C := AddrIndexer.Content) 0 first10))
  with
  | Ok (c, detached) =>
      match connect c detached with
      | Ok ix =>
          st_height (state ix) = 20%nat
          /\ length (AddrIndexer.getCoinsByAddress (content ix) [miner])
             = 20%nat
      | Err _ => False
      end
  | Err _ => False
  end.
Proof. vm_compute. by split. Qed.

End Witnesses.

(** * Further properties of the aggregator *)

Section AggregatorReads.
Import FullNodeIndexer.

(** X1.  [hasTX] answers from the mempool index alone when it has the
    transaction; otherwise it is the transaction index's answer when one
    is configured, and false when none is. *)
Theorem hasTX_mempool_then_txindex (this : t) (hash : Value) :
  (mp_hasTX (mempoolindex this) hash = true ->
   hasTX this hash = ([MempoolHasTX hash], Ok true))
  /\ (forall txi, mp_hasTX (mempoolindex this) hash = false ->
                  txindex this = Some txi ->
                  hasTX this hash
                  = ([MempoolHasTX hash; TxHasTX hash], txi_hasTX txi hash))
  /\ (mp_hasTX (mempoolindex this) hash = false ->
      txindex this = None ->
      hasTX this hash = ([MempoolHasTX hash], Ok false)).
Proof.
  unfold hasTX. split_and!.
  - by intros ->.
  - by intros txi -> ->.
  - by intros -> ->.
Qed.

(** X2.  [getTX] makes the calls of [getMeta] and no other; it returns the
    transaction of the metadata found, [null] when none is found, and the
    error of [getMeta] when it fails. *)
Theorem getTX_of_getMeta (this : t) (hash : Value) :
  getTX this hash
  = (calls (getMeta this hash),
     match outcome (getMeta this hash) with
     | Ok (Some m) => Ok (Some (meta_tx m))
     | Ok None => Ok None
     | Err e => Err e
     end).
Proof.
  unfold getTX, calls, outcome.
  destruct (getMeta this hash) as [l [[m|]|e]]; mrun;
    by rewrite ?app_nil_r.
Qed.

(** X3.  [getTXByAddress] makes the calls of [getMetaByAddress] and returns
    the transactions of its metadata, one for one and in the same order. *)
Theorem getTXByAddress_of_getMetaByAddress (this : t) (addrs : Value) :
  getTXByAddress this addrs
  = (calls (getMetaByAddress this addrs),
     match outcome (getMetaByAddress this addrs) with
     | Ok mtxs => Ok (map meta_tx mtxs)
     | Err e => Err e
     end).
Proof.
  unfold getTXByAddress, calls, outcome.
  destruct (getMetaByAddress this addrs) as [l [mtxs|e]]; mrun;
    by rewrite ?app_nil_r.
Qed.

(** The loop of [getMetaByAddress] up to the first hash the transaction
    index does not know. *)
Lemma collectMetas_first_missing (txi : TXIndexer) (known later : list Hash)
    (h : Hash) (metas acc : list TXMeta) :
  Forall2 (fun h m => txi_getMeta txi (VBuf h) = Ok (Some m)) known metas ->
  txi_getMeta txi (VBuf h) = Ok None ->
  collectMetas txi (known ++ h :: later) acc
  = ((fun h => TxGetMeta (VBuf h)) <$> (known ++ [h]), Err AssertionError).
Proof.
  intros HF Hh. revert acc.
  induction HF as [|k m ks ms Hk _ IH]; intros acc; cbn [app]; mrun.
  - by rewrite Hh.
  - rewrite Hk. mrun. by rewrite IH.
Qed.

(** X4.  With both indexes configured, [getMetaByAddress] looks the
    hashes up in the order the address index reports them and stops at
    the first one the transaction index does not know: the later hashes
    are not looked up, and the error is the assertion's. *)
Theorem getMetaByAddress_first_missing (this : t) (txi : TXIndexer)
    (ai : AddrIndexer) (addrs : Value) (mempool metas : list TXMeta)
    (known later : list Hash) (h : Hash)
    (Htx : txindex this = Some txi) (Hai : addrindex this = Some ai)
    (Hmempool : mp_getMetaByAddress (mempoolindex this) addrs = Ok mempool)
    (Hhashes : ai_getHashesByAddress ai
                 (if isArray addrs then addrs else VArr [addrs])
               = Ok (known ++ h :: later))
    (Hknown : Forall2 (fun h m => txi_getMeta txi (VBuf h) = Ok (Some m))
                      known metas)
    (Hmissing : txi_getMeta txi (VBuf h) = Ok None) :
  getMetaByAddress this addrs
  = (MempoolGetMetaByAddress addrs
       :: AddrGetHashesByAddress
            (if isArray addrs then addrs else VArr [addrs])
       :: ((fun h => TxGetMeta (VBuf h)) <$> (known ++ [h])),
     Err AssertionError).
Proof.
  unfold getMetaByAddress. rewrite Htx, Hai, Hmempool. mrun.
  rewrite Hhashes. mrun.
  by rewrite (collectMetas_first_missing _ _ _ _ _ [] Hknown Hmissing).
Qed.

End AggregatorReads.

(** * The handlers past their guards *)

Section HandlerFacts.
Import FullNodeIndexer Http.

Lemma bind_Ok_inv {A B} (m : M A) (k : A -> M B) (l : list Call) (b : B) :
  bind m k = (l, Ok b) ->
  exists l1 a l2, m = (l1, Ok a) /\ k a = (l2, Ok b) /\ l = l1 ++ l2.
Proof.
  destruct m as [l1 [a|e]]; cbn [bind]; [|done].
  destruct (k a) as [l2 r] eqn:Hk. intros [= <- ->]. by exists l1, a, l2.
Qed.

Lemma bind_run {A B} (m : M A) (k : A -> M B) :
  bind m k
  = match outcome m with
    | Ok a => (calls m ++ calls (k a), outcome (k a))
    | Err e => (calls m, Err e)
    end.
Proof.
  destruct m as [l [a|e]]; cbn [bind calls outcome fst snd]; [|done].
  by destruct (k a).
Qed.

(** The rendering loop: every view is asked for in turn; one JSON per
    metadata comes out, in order. *)
Lemma metasJSON_ok (this : t) (metas : list TXMeta) (views : list CoinView)
    (acc : list JSON) :
  Forall2 (fun m v => outcome (getMetaView this m) = Ok v) metas views ->
  metasJSON this metas acc
  = (concat ((fun m => calls (getMetaView this m)) <$> metas),
     Ok (acc ++ zip_with (fun m v => MetaJSON m (network this) v
                                       (chain_height (chain this)))
                         metas views)).
Proof.
  intros HF. revert acc.
  induction HF as [|m v ms vs Hv _ IH]; intros acc; cbn [metasJSON].
  - by rewrite app_nil_r.
  - rewrite bind_run, Hv, IH. cbn [calls outcome fst snd fmap list_fmap concat
                                   zip_with].
    by rewrite <- app_assoc.
Qed.

Lemma metasJSON_fails (this : t) (metas : list TXMeta) (acc : list JSON)
    (m : TXMeta) (e : Error) :
  m ∈ metas -> outcome (getMetaView this m) = Err e ->
  exists l e', metasJSON this metas acc = (l, Err e').
Proof.
  intros Hin Hm. revert acc.
  induction metas as [|x xs IH]; intros acc.
  - by apply elem_of_nil in Hin.
  - cbn [metasJSON]. rewrite bind_run.
    destruct (outcome (getMetaView this x)) as [v|e0] eqn:Hx; [|eauto].
    apply elem_of_cons in Hin as [->|Hin]; [congruence|].
    destruct (IH Hin (acc ++ [MetaJSON x (network this) v
                                       (chain_height (chain this))]))
      as (l & e' & ->).
    cbn [calls outcome fst snd]. eauto.
Qed.

Lemma metasJSON_network (this : t) (metas : list TXMeta)
    (acc result : list JSON) (l : list Call) :
  metasJSON this metas acc = (l, Ok result) ->
  Forall (fun j => jsonNetwork j = network this) acc ->
  Forall (fun j => jsonNetwork j = network this) result.
Proof.
  revert acc l. induction metas as [|m ms IH]; intros acc l; cbn [metasJSON].
  - by intros [= _ <-].
  - intros (l1 & v & l2 & _ & Hrest & _)%bind_Ok_inv Hacc.
    apply (IH _ _ Hrest). apply Forall_app. split; [done|].
    by repeat constructor.
Qed.

(** X5.  GET /tx/:hash, past its guards: an unknown hash is answered 404 with
    no body and without asking for a spent view; a known one is rendered
    with the view [getMetaView] gives for it and the chain's height. *)
Theorem GET_tx_found_or_404 (P : Primitives) (this : t) (valid : Validator)
    (hash : Value)
    (Harg : brhash valid "hash" = Ok hash)
    (Htruthy : truthy hash = true)
    (Hspv : spv this = false) :
  (outcome (getMeta this hash) = Ok None ->
   handler P GET_tx this valid
   = (calls (getMeta this hash), Ok (json 404 NoBody)))
  /\ (forall meta, outcome (getMeta this hash) = Ok (Some meta) ->
      handler P GET_tx this valid
      = (calls (getMeta this hash) ++ calls (getMetaView this meta),
         match outcome (getMetaView this meta) with
         | Ok view => Ok (json 200 (One (MetaJSON meta (network this) view
                                          (chain_height (chain this)))))
         | Err e => Err e
         end)).
Proof.
  cbn [handler]. rewrite Harg. mrun. rewrite Htruthy, Hspv. mrun.
  split.
  - intros Hnone. rewrite bind_run, Hnone. cbn [calls fst ret snd outcome].
    by rewrite app_nil_r.
  - intros meta Hmeta. rewrite bind_run, Hmeta, bind_run.
    destruct (outcome (getMetaView this meta)); cbn [calls fst ret snd outcome];
      by rewrite ?app_nil_r.
Qed.

(** X6.  The two coin routes, past their guards: the response is 200 and holds
    one JSON per coin of [getCoinsByAddress], in its order; the single
    route passes the parsed address, the bulk route the list as it came. *)
Theorem coin_routes_render_every_coin (P : Primitives) (this : t)
    (valid : Validator) (r : Route) (v : Value) (addr : Address)
    (Hroute : r = GET_coin_address \/ r = POST_coin_address)
    (Harg : argument r valid = Ok v)
    (Htruthy : truthy v = true)
    (Hspv : spv this = false)
    (Hparse : r = GET_coin_address ->
              fromString P v (network this) = Ok addr) :
  let addrs := match r with GET_coin_address => VAddr addr | _ => v end in
  handler P r this valid
  = (calls (getCoinsByAddress this addrs),
     match outcome (getCoinsByAddress this addrs) with
     | Ok coins =>
         Ok (json 200 (Many (map (fun c => CoinJSON c (network this)) coins)))
     | Err e => Err e
     end).
Proof.
  destruct Hroute as [-> | ->]; cbn [argument] in Harg; cbn [handler];
    rewrite Harg; mrun; rewrite Htruthy, Hspv; mrun.
  - rewrite (Hparse eq_refl). mrun. rewrite bind_run.
    destruct (outcome (getCoinsByAddress this (VAddr addr)));
      cbn [calls fst ret snd outcome]; by rewrite ?app_nil_r.
  - rewrite bind_run.
    destruct (outcome (getCoinsByAddress this v));
      cbn [calls fst ret snd outcome]; by rewrite ?app_nil_r.
Qed.

(** X7.  The two transaction-by-address routes, past their guards: when every
    view resolves the response is 200 with one JSON per metadata, each
    with its own view; when the view of one metadata fails the handler
    fails and sends nothing. *)
Theorem tx_address_routes_all_or_nothing (P : Primitives) (this : t)
    (valid : Validator) (r : Route) (v : Value) (addr : Address)
    (metas : list TXMeta)
    (Hroute : r = GET_tx_address \/ r = POST_tx_address)
    (Harg : argument r valid = Ok v)
    (Htruthy : truthy v = true)
    (Hspv : spv this = false)
    (Hparse : r = GET_tx_address ->
              fromString P v (network this) = Ok addr)
    (Hmetas : outcome (getMetaByAddress this
                         (match r with GET_tx_address => VAddr addr | _ => v end))
              = Ok metas) :
  (forall views,
      Forall2 (fun m view => outcome (getMetaView this m) = Ok view)
              metas views ->
      outcome (handler P r this valid)
      = Ok (json 200
              (Many (zip_with (fun m view =>
                                 MetaJSON m (network this) view
                                          (chain_height (chain this)))
                              metas views))))
  /\ (forall m e, m ∈ metas -> outcome (getMetaView this m) = Err e ->
      exists e', outcome (handler P r this valid) = Err e').
Proof.
  split.
  - intros views HF.
    destruct Hroute as [-> | ->]; cbn [argument] in Harg; cbn [handler];
      rewrite Harg; mrun; rewrite Htruthy, Hspv; mrun;
      [rewrite (Hparse eq_refl); mrun|];
      rewrite bind_run, Hmetas, bind_run, (metasJSON_ok _ _ _ [] HF);
      reflexivity.
  - intros m e Hin Hm.
    destruct (metasJSON_fails this metas [] m e Hin Hm) as (l & e' & Hl).
    exists e'.
    destruct Hroute as [-> | ->]; cbn [argument] in Harg; cbn [handler];
      rewrite Harg; mrun; rewrite Htruthy, Hspv; mrun;
      [rewrite (Hparse eq_refl); mrun|];
      rewrite bind_run, Hmetas, bind_run, Hl; reflexivity.
Qed.

(** X11.  The handlers read [this.network], which the constructor does not
    assign: on a facade the constructor built, every JSON of a response
    is rendered for an undefined network, and only what
    [Address.fromString] does without a network matters. *)
Theorem handlers_ignore_configured_network (node : Node) (r : Route)
    (valid : Validator) (P P' : Primitives) :
  (forall resp, outcome (handler P r (constructor node) valid) = Ok resp ->
                Forall (fun j => jsonNetwork j = None)
                       (bodyJSON (res_body resp)))
  /\ ((forall v, fromString P v None = fromString P' v None) ->
      handler P r (constructor node) valid
      = handler P' r (constructor node) valid).
Proof.
  set (this := constructor node).
  assert (Hnet : network this = None) by done.
  split.
  - intros resp. unfold outcome.
    destruct (handler P r this valid) as [l res] eqn:Hh. cbn [snd].
    intros ->. rewrite <- Hnet. revert Hh.
    destruct r; cbn [handler];
      intros (l1 & a & l2 & _ & Hh & _)%bind_Ok_inv;
      apply bind_Ok_inv in Hh as (l3 & [] & l4 & _ & Hh & _);
      apply bind_Ok_inv in Hh as (l5 & [] & l6 & _ & Hh & _).
    + apply bind_Ok_inv in Hh as (l7 & ad & l8 & _ & Hh & _).
      apply bind_Ok_inv in Hh as (l9 & coins & l10 & _ & [= _ <-] & _).
      cbn [res_body bodyJSON]. apply Forall_forall.
      by intros j (c & -> & _)%list_elem_of_fmap.
    + apply bind_Ok_inv in Hh as (l9 & coins & l10 & _ & [= _ <-] & _).
      cbn [res_body bodyJSON]. apply Forall_forall.
      by intros j (c & -> & _)%list_elem_of_fmap.
    + apply bind_Ok_inv in Hh as (l7 & [meta|] & l8 & _ & Hh & _).
      * apply bind_Ok_inv in Hh as (l9 & view & l10 & _ & [= _ <-] & _).
        cbn [res_body bodyJSON]. by repeat constructor.
      * injection Hh as _ <-. constructor.
    + apply bind_Ok_inv in Hh as (l7 & ad & l8 & _ & Hh & _).
      apply bind_Ok_inv in Hh as (l9 & metas & l10 & _ & Hh & _).
      apply bind_Ok_inv in Hh as (l11 & result & l12 & Hres & [= _ <-] & _).
      cbn [res_body bodyJSON]. by eapply metasJSON_network.
    + apply bind_Ok_inv in Hh as (l9 & metas & l10 & _ & Hh & _).
      apply bind_Ok_inv in Hh as (l11 & result & l12 & Hres & [= _ <-] & _).
      cbn [res_body bodyJSON]. by eapply metasJSON_network.
  - intros Hsame. destruct r; cbn [handler]; try reflexivity;
      (destruct (str valid "address") as [v|e]; mrun; [|done]);
      (destruct (truthy v); mrun; [|done]);
      (destruct (spv this); mrun; [done|]);
      change (network this) with (@None Network); by rewrite Hsame.
Qed.

(** X8.  The two guards of a handler, in their order: a missing argument is
    reported as such even in SPV mode; SPV mode is reported only for an
    argument that is there. *)
Theorem guards_report_missing_before_spv (P : Primitives) (r : Route)
    (this : t) (valid : Validator) (v : Value)
    (Harg : argument r valid = Ok v) :
  (truthy v = false ->
   handler P r this valid = ([], Err (HttpError (requiredMessage r) 400)))
  /\ (truthy v = true -> spv this = true ->
      handler P r this valid = ([], Err (HttpError (spvMessage r) 400))).
Proof.
  split.
  - intros Ht. destruct r; cbn [argument] in Harg; cbn [handler];
      rewrite Harg; mrun; by rewrite Ht.
  - intros Ht Hspv. destruct r; cbn [argument] in Harg; cbn [handler];
      rewrite Harg; mrun; by rewrite Ht, Hspv.
Qed.

(** X9.  Empty input: the single routes reject an empty string as a missing
    address; the bulk routes accept an empty list and hand it to the
    aggregator. *)
Theorem empty_string_rejected_empty_list_accepted (P : Primitives)
    (this : t) (valid : Validator) :
  (forall r, r = GET_coin_address \/ r = GET_tx_address ->
             argument r valid = Ok (VStr "") ->
             handler P r this valid
             = ([], Err (HttpError "Address is required." 400)))
  /\ (argument POST_coin_address valid = Ok (VArr []) -> spv this = false ->
      handler P POST_coin_address this valid
      = (calls (getCoinsByAddress this (VArr [])),
         match outcome (getCoinsByAddress this (VArr [])) with
         | Ok coins =>
             Ok (json 200
                   (Many (map (fun c => CoinJSON c (network this)) coins)))
         | Err e => Err e
         end))
  /\ (argument POST_tx_address valid = Ok (VArr []) -> spv this = false ->
      exists rest,
        calls (handler P POST_tx_address this valid)
        = MempoolGetMetaByAddress (VArr []) :: rest).
Proof.
  split_and!.
  - intros r [-> | ->] Harg; cbn [argument] in Harg; cbn [handler];
      by rewrite Harg.
  - intros Harg Hspv. cbn [argument] in Harg. cbn [handler].
    rewrite Harg. mrun. cbn [truthy]. mrun. rewrite Hspv. mrun.
    rewrite bind_run.
    destruct (outcome (getCoinsByAddress this (VArr [])));
      cbn [calls fst ret snd outcome]; by rewrite ?app_nil_r.
  - intros Harg Hspv. cbn [argument] in Harg. cbn [handler].
    rewrite Harg. mrun. cbn [truthy]. mrun. rewrite Hspv. mrun.
    rewrite bind_run.
    unfold getMetaByAddress at 1 2 3. rewrite !bind_run.
    cbn [call calls outcome fst snd].
    destruct (mp_getMetaByAddress (mempoolindex this) (VArr []));
      cbn [app]; [|by eauto].
    destruct (outcome _); cbn [calls fst app]; eauto.
Qed.

(** X10.  A node that runs without the address index answers both coin routes
    with an empty list: status 200, no error, no index asked. *)
Theorem coin_routes_without_address_index (P : Primitives) (node : Node)
    (valid : Validator) (r : Route) (v : Value) (addr : Address)
    (Hoff : node_index_address node = false)
    (Hfull : chain_spv (node_chain node) = false)
    (Hroute : r = GET_coin_address \/ r = POST_coin_address)
    (Harg : argument r valid = Ok v)
    (Htruthy : truthy v = true)
    (Hparse : r = GET_coin_address -> fromString P v None = Ok addr) :
  handler P r (constructor node) valid = ([], Ok (json 200 (Many []))).
Proof.
  destruct Hroute as [-> | ->]; cbn [argument] in Harg; cbn [handler];
    rewrite Harg; mrun; rewrite Htruthy; unfold constructor;
    cbn [spv network]; rewrite Hfull; mrun.
  - rewrite (Hparse eq_refl). mrun.
    unfold getCoinsByAddress. cbn [addrindex]. by rewrite Hoff.
  - unfold getCoinsByAddress. cbn [addrindex]. by rewrite Hoff.
Qed.

End HandlerFacts.

(** * Opening, closing and the error wiring *)

Section LifecycleFacts.
Import FullNodeIndexer Lifecycle.

(** X12.  [open()] opens the transaction index first.  When that fails the
    address index is not opened and the failure is the result; [open()]
    succeeds exactly when every configured index opens. *)
Theorem open_stops_at_first_failure (p : Plugin.t) (o : Outcomes) :
  (forall e, is_Some (txindex (Plugin.indexer p)) -> txOpen o = Err e ->
             Plugin.open p o = ([TxOpen], Err e))
  /\ (AddrOpen ∈ (Plugin.open p o).1 ->
      is_Some (addrindex (Plugin.indexer p))
      /\ (is_Some (txindex (Plugin.indexer p)) -> exists u, txOpen o = Ok u))
  /\ ((exists u, (Plugin.open p o).2 = Ok u) <->
      (is_Some (txindex (Plugin.indexer p)) -> exists u, txOpen o = Ok u)
      /\ (is_Some (addrindex (Plugin.indexer p)) ->
          exists u, addrOpen o = Ok u)).
Proof.
  unfold Plugin.open, open, andThen, whenConfigured. split_and!.
  - intros e [txi ->] ->. reflexivity.
  - intros Hin.
    destruct (txindex (Plugin.indexer p)), (addrindex (Plugin.indexer p)),
             (txOpen o); cbn [fst snd app] in Hin;
      rewrite ?elem_of_cons, ?elem_of_nil in Hin; naive_solver.
  - destruct (txindex (Plugin.indexer p)), (addrindex (Plugin.indexer p)),
             (txOpen o), (addrOpen o); cbn [fst snd app];
      rewrite ?is_Some_alt; naive_solver.
Qed.

(** X13.  [close()] closes in the order of [open()], the transaction index
    first; when that fails the address index is left open. *)
Theorem close_stops_at_first_failure (p : Plugin.t) (o : Outcomes) :
  (forall e, is_Some (txindex (Plugin.indexer p)) -> txClose o = Err e ->
             Plugin.close p o = ([TxClose], Err e))
  /\ (forall u u', is_Some (txindex (Plugin.indexer p)) ->
                   is_Some (addrindex (Plugin.indexer p)) ->
                   txClose o = Ok u -> addrClose o = Ok u' ->
                   Plugin.close p o = ([TxClose; AddrClose], Ok u'))
  /\ (txindex (Plugin.indexer p) = None ->
      addrindex (Plugin.indexer p) = None ->
      Plugin.close p o = ([], Ok tt)).
Proof.
  unfold Plugin.close, close, andThen, whenConfigured. split_and!.
  - intros e [txi ->] ->. reflexivity.
  - intros u u' [txi ->] [ai ->] -> ->. reflexivity.
  - intros -> ->. reflexivity.
Qed.

Lemma runCallbacks_returning (ls : list (nat * bool)) (err : Error) :
  forallb (fun l : nat * bool => negb l.2) ls = true ->
  runCallbacks ls err = (Http.invocations ls err, None).
Proof.
  induction ls as [|[id throws] ls IH]; cbn [forallb runCallbacks]; [done|].
  intros [Hl Hls]%andb_true_iff. cbn [snd] in Hl.
  destruct throws; [done|]. by rewrite (IH Hls).
Qed.

(** X14.  With no 'error' listener on the facade, which is how the plugin leaves
    it, an error of a configured sub-index is not delivered to anyone: the
    facade's [emit] throws it, and it comes back out of the sub-index's
    own [emit]. *)
Theorem unheard_error_is_thrown (node : Node) (w : Wiring) (s : SubIndex)
    (err : Error)
    (Hconf : configured (Plugin.indexer (Plugin.plugin_init node)) s = true)
    (Hnone : facade_listeners w = [])
    (Hfresh : sub_listeners w s = []) :
  emitSub (Plugin.init (Plugin.plugin_init node) w) s err
  = ([Emitted (Sub s) err; Emitted Facade err], Some err).
Proof.
  unfold Plugin.init, emitSub.
  rewrite (init_sub_listeners _ w s Hconf), Hfresh. cbn [app runListeners].
  unfold emitFacade.
  assert (facade_listeners (init (Plugin.indexer (Plugin.plugin_init node)) w)
          = []) as ->; [|done].
  rewrite <- Hnone. unfold init.
  by destruct (txindex _), (addrindex _).
Qed.

(** X15.  [init] is not idempotent: after two calls every error of a configured
    sub-index reaches the facade's listeners twice. *)
Theorem init_twice_emits_twice (this : t) (w : Wiring) (s : SubIndex)
    (err : Error)
    (Hconf : configured this s = true)
    (Hsome : facade_listeners w <> [])
    (Hreturn : forallb (fun l : nat * bool => negb l.2) (facade_listeners w)
               = true)
    (Hfresh : sub_listeners w s = []) :
  emitSub (init this (init this w)) s err
  = (Emitted (Sub s) err
       :: (Emitted Facade err :: Http.invocations (facade_listeners w) err)
       ++ (Emitted Facade err :: Http.invocations (facade_listeners w) err),
     None).
Proof.
  assert (Hfl : forall w', facade_listeners (init this w')
                           = facade_listeners w').
  { intros w'. unfold init. by destruct (txindex this), (addrindex this). }
  unfold emitSub.
  rewrite (init_sub_listeners this _ s Hconf),
          (init_sub_listeners this w s Hconf), Hfresh.
  cbn [app runListeners]. unfold emitFacade. rewrite !Hfl.
  destruct (facade_listeners w) as [|l ls] eqn:Hls; [done|].
  rewrite (runCallbacks_returning _ err Hreturn). cbn [app].
  by rewrite app_nil_r.
Qed.

End LifecycleFacts.

(** * The comparison of the test *)

Section LessFacts.

Lemma nth_hashBytes (h : Hash) (i : nat) :
  (i < 32)%nat ->
  nth i (hashBytes h) 0 = (h / 2 ^ (8 * Z.of_nat i)) mod 256.
Proof.
  intros Hi. unfold hashBytes.
  rewrite (nth_indep _ 0 ((fun i => Z.land (Z.shiftr h (8 * Z.of_nat i)) 255)
                            O))
    by (rewrite length_map, length_seq; lia).
  rewrite (map_nth (fun i => Z.land (Z.shiftr h (8 * Z.of_nat i)) 255)).
  rewrite seq_nth by lia. cbn [Nat.add].
  rewrite Z.shiftr_div_pow2 by lia.
  change 255 with (Z.ones 8). rewrite Z.land_ones by lia. reflexivity.
Qed.

(** Two numbers compare by their top digit first. *)
Lemma digits_lt (k A B la lb : Z) :
  0 < k -> 0 <= la < k -> 0 <= lb < k ->
  (la + k * A < lb + k * B <-> A < B \/ (A = B /\ la < lb)).
Proof. intros. nia. Qed.

Lemma lessFrom_spec (n : nat) (a b : Hash) :
  (n <= 32)%nat ->
  lessFrom n (hashBytes a) (hashBytes b) = true
  <-> a mod 2 ^ (8 * Z.of_nat n) < b mod 2 ^ (8 * Z.of_nat n).
Proof.
  induction n as [|i IH]; intros Hn.
  - cbn [lessFrom]. change (2 ^ (8 * Z.of_nat 0)) with 1.
    rewrite !Z.mod_1_r. split; [done|lia].
  - cbn [lessFrom]. rewrite !nth_hashBytes by lia.
    set (k := 2 ^ (8 * Z.of_nat i)).
    assert (Hk : 0 < k) by (apply Z.pow_pos_nonneg; lia).
    replace (2 ^ (8 * Z.of_nat (S i))) with (k * 256).
    2:{ unfold k. replace (8 * Z.of_nat (S i)) with (8 * Z.of_nat i + 8)
          by lia.
        rewrite Z.pow_add_r by lia. reflexivity. }
    rewrite !(Z.rem_mul_r _ k 256) by lia.
    pose proof (Z.mod_pos_bound a k Hk) as Ha.
    pose proof (Z.mod_pos_bound b k Hk) as Hb.
    rewrite (digits_lt k _ _ _ _ Hk Ha Hb).
    specialize (IH ltac:(lia)). fold k in IH.
    destruct (Z.ltb_spec ((a / k) mod 256) ((b / k) mod 256)) as [Hlt|Hge].
    + split; [by left|done].
    + destruct (Z.ltb_spec ((b / k) mod 256) ((a / k) mod 256)) as [Hgt|Hle].
      * split; [done|lia].
      * rewrite IH. split; [intros ?; right; lia|intros [?|[_ ?]]; [lia|done]].
Qed.

(** X16.  [less] compares two 32-byte hashes as little-endian numbers. *)
Theorem less_is_numeric_order (a b : TX)
    (Ha : 0 <= tx_hash a < 2 ^ 256) (Hb : 0 <= tx_hash b < 2 ^ 256) :
  less a b = true <-> tx_hash a < tx_hash b.
Proof.
  unfold less. rewrite (lessFrom_spec 32) by lia.
  change (2 ^ (8 * Z.of_nat 32)) with (2 ^ 256).
  by rewrite !Z.mod_small by done.
Qed.

(** X17.  [less] is a strict order: a transaction is not less than itself,
    two transactions are never each less than the other, and [less] is
    transitive. *)
Theorem less_strict_order (a b c : TX) :
  less a a = false
  /\ (less a b = true -> less b a = false)
  /\ (less a b = true -> less b c = true -> less a c = true).
Proof.
  unfold less. split_and!.
  - apply not_true_is_false. rewrite (lessFrom_spec 32) by lia. lia.
  - intros H1. apply not_true_is_false. revert H1.
    rewrite !(lessFrom_spec 32) by lia. lia.
  - rewrite !(lessFrom_spec 32) by lia. lia.
Qed.

End LessFacts.

(** * The further properties at the scenario *)

Section MoreWitnesses.
Import FullNodeIndexer Scenario Examples.

Lemma hasTX_mempool_then_txindex_witness :
  hasTX full (VBuf 1001)
  = ([MempoolHasTX (VBuf 1001); TxHasTX (VBuf 1001)], Ok true).
Proof.
  apply (proj1 (proj2 (hasTX_mempool_then_txindex full (VBuf 1001))) txidx);
    reflexivity.
Defined.

Lemma getMetaByAddress_first_missing_witness :
  txindex drifted = Some txidx
  /\ txi_getMeta txidx (VBuf 4242) = Ok None
  /\ getMetaByAddress drifted (VAddr miner)
     = ([MempoolGetMetaByAddress (VAddr miner);
         AddrGetHashesByAddress (VArr [VAddr miner]);
         TxGetMeta (VBuf 1001); TxGetMeta (VBuf 4242)],
        Err AssertionError).
Proof.
  split_and!; [reflexivity|reflexivity|].
  refine (getMetaByAddress_first_missing drifted txidx _ (VAddr miner)
            [unconfirmed] [meta1] [1001] [1001] 4242
            eq_refl eq_refl eq_refl eq_refl _ eq_refl).
  repeat constructor.
Defined.

Lemma GET_tx_found_or_404_witness :
  brhash (request (VBuf 77)) "hash" = Ok (VBuf 77)
  /\ truthy (VBuf 77) = true /\ spv full = false
  /\ handler primitives GET_tx full (request (VBuf 77))
     = ([MempoolGetMeta (VBuf 77); TxGetMeta (VBuf 77)],
        Ok (json 404 NoBody)).
Proof.
  split_and!; [reflexivity|reflexivity|reflexivity|].
  apply (proj1 (GET_tx_found_or_404 primitives full (request (VBuf 77))
                  (VBuf 77) eq_refl eq_refl eq_refl)).
  reflexivity.
Defined.

Lemma coin_routes_render_every_coin_witness :
  argument GET_coin_address (request (VStr "miner")) = Ok (VStr "miner")
  /\ truthy (VStr "miner") = true /\ spv bare = false
  /\ fromString primitives (VStr "miner") (network bare) = Ok miner
  /\ handler primitives GET_coin_address bare (request (VStr "miner"))
     = ([], Ok (json 200 (Many []))).
Proof.
  split_and!; [reflexivity|reflexivity|reflexivity|reflexivity|].
  apply (coin_routes_render_every_coin primitives bare
           (request (VStr "miner")) GET_coin_address (VStr "miner") miner);
    (by left) || reflexivity.
Defined.

Lemma tx_address_routes_all_or_nothing_witness :
  argument POST_tx_address (request (VArr [VStr "miner"]))
  = Ok (VArr [VStr "miner"])
  /\ truthy (VArr [VStr "miner"]) = true /\ spv full = false
  /\ outcome (getMetaByAddress full (VArr [VStr "miner"]))
     = Ok [meta1; unconfirmed]
  /\ outcome (handler primitives POST_tx_address full
                (request (VArr [VStr "miner"])))
     = Ok (json 200 (Many [MetaJSON meta1 None ∅ 31;
                           MetaJSON unconfirmed None ∅ 31])).
Proof.
  split_and!; [reflexivity|reflexivity|reflexivity|reflexivity|].
  refine (proj1 (tx_address_routes_all_or_nothing primitives full
                   (request (VArr [VStr "miner"])) POST_tx_address
                   (VArr [VStr "miner"]) miner [meta1; unconfirmed]
                   (or_intror eq_refl) eq_refl eq_refl eq_refl _ eq_refl)
                [∅; ∅] _).
  - discriminate.
  - repeat constructor.
Defined.

Lemma handlers_ignore_configured_network_witness :
  Forall (fun j => Http.jsonNetwork j = None)
         (Http.bodyJSON
            (res_body (json 200 (Many [MetaJSON meta1 None ∅ 31;
                                       MetaJSON unconfirmed None ∅ 31])))).
Proof.
  apply (proj1 (handlers_ignore_configured_network (node true true)
                  POST_tx_address (request (VArr [VStr "miner"]))
                  primitives primitives)).
  reflexivity.
Defined.

Lemma open_stops_at_first_failure_witness :
  Plugin.open (Plugin.plugin_init (node true true)) locked
  = ([Lifecycle.TxOpen], Err (Thrown "database is locked")).
Proof.
  apply (proj1 (open_stops_at_first_failure
                  (Plugin.plugin_init (node true true)) locked)).
  - by eexists.
  - reflexivity.
Defined.

Lemma close_stops_at_first_failure_witness :
  Plugin.close (Plugin.plugin_init (node true true)) stuck
  = ([Lifecycle.TxClose], Err (Thrown "database is busy")).
Proof.
  apply (proj1 (close_stops_at_first_failure
                  (Plugin.plugin_init (node true true)) stuck)).
  - by eexists.
  - reflexivity.
Defined.

Lemma unheard_error_is_thrown_witness :
  configured (Plugin.indexer (Plugin.plugin_init (node true false)))
             TheTxIndex = true
  /\ facade_listeners unwired = []
  /\ sub_listeners unwired TheTxIndex = []
  /\ emitSub (Plugin.init (Plugin.plugin_init (node true false)) unwired)
             TheTxIndex AssertionError
     = ([Emitted (Sub TheTxIndex) AssertionError;
         Emitted Facade AssertionError], Some AssertionError).
Proof.
  split_and!; [reflexivity|reflexivity|reflexivity|].
  apply (unheard_error_is_thrown (node true false) unwired TheTxIndex
           AssertionError); reflexivity.
Defined.

Lemma init_twice_emits_twice_witness :
  configured full TheMempoolIndex = true
  /\ facade_listeners listened <> []
  /\ forallb (fun l : nat * bool => negb l.2) (facade_listeners listened)
     = true
  /\ sub_listeners listened TheMempoolIndex = []
  /\ emitSub (init full (init full listened)) TheMempoolIndex AssertionError
     = ([Emitted (Sub TheMempoolIndex) AssertionError;
         Emitted Facade AssertionError; Invoked 1 AssertionError;
         Emitted Facade AssertionError; Invoked 1 AssertionError], None).
Proof.
  split_and!; [reflexivity|discriminate|reflexivity|reflexivity|].
  apply (init_twice_emits_twice full listened TheMempoolIndex AssertionError);
    reflexivity || discriminate.
Defined.

Lemma less_is_numeric_order_witness :
  0 <= tx_hash tx2 < 2 ^ 256 /\ 0 <= tx_hash tx1 < 2 ^ 256
  /\ (less tx2 tx1 = true <-> tx_hash tx2 < tx_hash tx1).
Proof.
  assert (H2 : 0 <= tx_hash tx2 < 2 ^ 256) by (cbn; lia).
  assert (H1 : 0 <= tx_hash tx1 < 2 ^ 256) by (cbn; lia).
  split_and!; [lia|lia|lia|lia|].
  exact (less_is_numeric_order tx2 tx1 H2 H1).
Defined.

Lemma less_strict_order_witness :
  less tx2 tx1 = true /\ less tx1 tx2 = false.
Proof.
  assert (H : less tx2 tx1 = true) by (vm_compute; reflexivity).
  split; [exact H|].
  exact (proj1 (proj2 (less_strict_order tx2 tx1 tx1)) H).
Defined.

Lemma guards_report_missing_before_spv_witness :
  argument GET_tx (request VNull) = Ok VNull
  /\ truthy VNull = false
  /\ handler primitives GET_tx spvNode (request VNull)
     = ([], Err (HttpError "Hash is required." 400)).
Proof.
  split_and!; [reflexivity|reflexivity|].
  apply (proj1 (guards_report_missing_before_spv primitives GET_tx spvNode
                  (request VNull) VNull eq_refl)).
  reflexivity.
Defined.

Lemma empty_string_rejected_empty_list_accepted_witness :
  argument POST_coin_address (request (VArr [])) = Ok (VArr [])
  /\ spv full = false
  /\ handler primitives POST_coin_address full (request (VArr []))
     = ([AddrGetCoinsByAddress (VArr [])], Ok (json 200 (Many []))).
Proof.
  split_and!; [reflexivity|reflexivity|].
  apply (proj1 (proj2 (empty_string_rejected_empty_list_accepted primitives
                         full (request (VArr []))))); reflexivity.
Defined.

Lemma coin_routes_without_address_index_witness :
  node_index_address (node true false) = false
  /\ chain_spv (node_chain (node true false)) = false
  /\ argument POST_coin_address (request (VArr [VStr "miner"]))
     = Ok (VArr [VStr "miner"])
  /\ truthy (VArr [VStr "miner"]) = true
  /\ handler primitives POST_coin_address (constructor (node true false))
             (request (VArr [VStr "miner"]))
     = ([], Ok (json 200 (Many []))).
Proof.
  split_and!; [reflexivity|reflexivity|reflexivity|reflexivity|].
  apply (coin_routes_without_address_index primitives (node true false)
           (request (VArr [VStr "miner"])) POST_coin_address
           (VArr [VStr "miner"]) miner);
    (by right) || reflexivity || discriminate.
Defined.

End MoreWitnesses.
